(** * AIPDFLab: a model of [src/App.jsx]

    The component keeps four pieces of UI state (the pending file list, the
    processing flag, the message and the result URL) and offers three
    operations over the pdf-lib library: merge, page removal and the
    compression fallback.  The operations are modelled as programs of a
    small state-and-exception monad over the UI state, the object-URL store
    and a log of the effects performed; pdf-lib itself is an interface. *)

From stdpp Require Import base list strings gmap sets sorting.
From Stdlib Require Import ZArith QArith.

Local Open Scope nat_scope.

(** ** Page selector (removePagesFromPdf, lines 95-99) *)

Module Selector.

(** [pagesToRemove.includes(x)] on an array of numbers. *)
Definition includes (arr : list Z) (x : Z) : bool :=
  existsb (Z.eqb x) arr.

(** The body of the [for] loop: [if (!pagesToRemove.includes(i + 1)) toKeep.push(i)]. *)
Definition loop_body (pagesToRemove : list Z) (i : nat) (toKeep : list nat) : list nat :=
  if negb (includes pagesToRemove (Z.of_nat i + 1)) then toKeep ++ [i] else toKeep.

(** [for (let i = ...; i < total; i++) body], with [fuel] bounding the
    number of iterations. *)
Fixpoint for_loop (fuel total : nat) (pagesToRemove : list Z)
    (i : nat) (toKeep : list nat) : list nat :=
  match fuel with
  | O => toKeep
  | S fuel' =>
      if i <? total
      then for_loop fuel' total pagesToRemove (S i) (loop_body pagesToRemove i toKeep)
      else toKeep
  end.

(** [const toKeep = []; for (let i = 0; i < total; i++) ...]: the loop runs
    at most [total] times. *)
Definition toKeep (total : nat) (pagesToRemove : list Z) : list nat :=
  for_loop total total pagesToRemove 0 [].

(** The selector as the specification writes it:
    [keep = [i for i in 0..N-1 if (i+1) not in R]]. *)
Definition keep_spec (N : nat) (R : list Z) : list nat :=
  List.filter (fun i => negb (bool_decide (Z.of_nat i + 1 ∈ R)%Z)) (seq 0 N).

(** The page numbers [1..N] of a document of [N] pages. *)
Definition pageNumbers (N : nat) : gset Z :=
  list_to_set (Z.of_nat <$> seq 1 N).

(** The in-range part of a removal request. *)
Definition inRange (N : nat) (R : list Z) : list Z :=
  List.filter (fun r => (1 <=? r)%Z && (r <=? Z.of_nat N)%Z) R.

(** The pages of [0..N-1] that the request does remove. *)
Definition removed (N : nat) (R : list Z) : list nat :=
  List.filter (fun i => bool_decide (Z.of_nat i + 1 ∈ R)%Z) (seq 0 N).

End Selector.

(** ** JavaScript values *)

Definition bytes := list Byte.byte.

(** Thrown values: [Error] objects, with their [name] and [message]. *)
Record JsError := { err_name : string; err_message : string }.

(** [Error.prototype.toString]. *)
Definition error_toString (e : JsError) : string :=
  if String.eqb (err_name e) "" then err_message e
  else if String.eqb (err_message e) "" then err_name e
  else (err_name e ++ ": " ++ err_message e)%string.

(** [(err.message || err)] in a string concatenation: the message when it
    is truthy (not empty), the error converted to a string otherwise. *)
Definition message_or_error (err : JsError) : string :=
  if String.eqb (err_message err) "" then error_toString err else err_message err.

(** How an awaited call completes: normally with a value, or by throwing. *)
Inductive completion (A : Type) : Type :=
  | Normal (a : A)
  | Throw (e : JsError).
Arguments Normal {A} a.
Arguments Throw {A} e.

Definition TypeError (msg : string) : JsError :=
  {| err_name := "TypeError"; err_message := msg |}.

(** The [File] objects of the picker; [arrayBuffer] is the outcome of
    awaiting [file.arrayBuffer()]. *)
Module File.
Record t := {
  name : string;
  size : nat;
  type : string;
  arrayBuffer : completion bytes
}.
End File.

(** [new Blob([bytes], { type })]. *)
Module Blob.
Record t := { parts : bytes; type : string }.
End Blob.

(** Object URLs are the positions of their blobs in the URL store. *)
Definition Url := nat.

(** ** pdf-lib *)

(** A document is its ordered page sequence. *)
Record PDFDocument (Page : Type) := { pages : list Page }.
Arguments pages {Page} _.

(** The primitives of the library that the component relies on: the
    dynamic import, the parser behind [PDFDocument.load], the page-copy
    primitive behind [copyPages], and the serializer behind [save]. *)
Class PdfLib (Page : Type) := {
  import_pdf_lib : completion unit;
  parse : bytes → bool → completion (list Page);
  copy_page : Page → completion Page;
  serialize : list Page → completion bytes
}.

(** ** The component *)

Module App.

(** The four [useState] cells of [AIPDFLab]. *)
Record AppState := {
  files : list File.t;
  processing : bool;
  message : string;
  resultUrl : option Url
}.

Section Model.
Context {Page : Type} `{!PdfLib Page}.

(** The awaited calls into the environment. *)
Inductive ExternalCall :=
  | CallImport
  | CallArrayBuffer (file : File.t)
  | CallLoad (data : bytes) (ignoreEncryption : bool)
  | CallCreate
  | CallCopyPages (src : PDFDocument Page) (indices : list nat)
  | CallSave (doc : PDFDocument Page)
  | CallCreateObjectURL (blob : Blob.t).

(** What an operation does, in order: state updates, console output, and
    external calls with the error they raised, if any. *)
Inductive Event :=
  | SetFiles (fs : list File.t)
  | SetProcessing (b : bool)
  | SetMessage (m : string)
  | SetResultUrl (u : option Url)
  | ConsoleError (err : JsError)
  | Call (c : ExternalCall) (raised : option JsError).

Record World := {
  ui : AppState;
  objectURLs : list Blob.t;
  log : list Event
}.

(** Programs: state passing over [World], completing normally or by a throw. *)
Definition M (A : Type) : Type := World → completion A * World.

Definition ret {A} (a : A) : M A := fun w => (Normal a, w).

Definition bind {A B} (k : A → M B) (m : M A) : M B :=
  fun w =>
    match m w with
    | (Normal a, w') => k a w'
    | (Throw e, w') => (Throw e, w')
    end.

#[export] Instance M_ret : MRet M := @ret.
#[export] Instance M_bind : MBind M := @bind.

(** The world after some more events. *)
Definition logged (w : World) (evs : list Event) : World :=
  {| ui := ui w; objectURLs := objectURLs w; log := log w ++ evs |}.

Definition emit (ev : Event) : M unit :=
  fun w => (Normal tt, logged w [ev]).

Definition update (f : AppState → AppState) : M unit :=
  fun w => (Normal tt, {| ui := f (ui w); objectURLs := objectURLs w; log := log w |}).

(** [await call]: the call is logged with its outcome. *)
Definition await {A} (c : ExternalCall) (r : completion A) : M A :=
  fun w =>
    match r with
    | Normal a => (Normal a, logged w [Call c None])
    | Throw e => (Throw e, logged w [Call c (Some e)])
    end.

(** [try { body } catch (err) { handler err } finally { final }]. *)
Definition try_catch_finally {A} (body : M A) (handler : JsError → M A)
    (final : M unit) : M A :=
  fun w =>
    let '(r, w1) := match body w with
                    | (Normal a, w') => (Normal a, w')
                    | (Throw err, w') => handler err w'
                    end in
    match final w1 with
    | (Normal _, w2) => (r, w2)
    | (Throw e, w2) => (Throw e, w2)
    end.

(** [for (const x of xs) body], threading the object the body mutates. *)
Fixpoint for_of {A S} (xs : list A) (body : A → S → M S) (s : S) : M S :=
  match xs with
  | [] => mret s
  | x :: xs' => s' ← body x s; for_of xs' body s'
  end.

(** *** State setters *)

Definition setFiles (f : list File.t → list File.t) : M unit :=
  fun w =>
    let fs := f (files (ui w)) in
    (update (fun s => {| files := fs; processing := processing s;
                         message := message s; resultUrl := resultUrl s |});;
     emit (SetFiles fs)) w.

Definition setProcessing (b : bool) : M unit :=
  update (fun s => {| files := files s; processing := b;
                      message := message s; resultUrl := resultUrl s |});;
  emit (SetProcessing b).

Definition setMessage (m : string) : M unit :=
  update (fun s => {| files := files s; processing := processing s;
                      message := m; resultUrl := resultUrl s |});;
  emit (SetMessage m).

Definition setResultUrl (u : option Url) : M unit :=
  update (fun s => {| files := files s; processing := processing s;
                      message := message s; resultUrl := u |});;
  emit (SetResultUrl u).

Definition console_error (err : JsError) : M unit := emit (ConsoleError err).

(** *** Library and browser calls *)

Definition import_ : M unit := await CallImport import_pdf_lib.

Definition arrayBuffer (file : File.t) : M bytes :=
  await (CallArrayBuffer file) (File.arrayBuffer file).

(** [PDFDocument.create()]: a document without pages. *)
Definition create : M (PDFDocument Page) :=
  await CallCreate (Normal {| pages := [] |}).

(** [PDFDocument.load(arrayBuffer, { ignoreEncryption })]. *)
Definition load (data : bytes) (ignoreEncryption : bool) : M (PDFDocument Page) :=
  await (CallLoad data ignoreEncryption)
    (match parse data ignoreEncryption with
     | Normal ps => Normal {| pages := ps |}
     | Throw e => Throw e
     end).

Definition getPageCount (doc : PDFDocument Page) : nat := length (pages doc).

Definition getPageIndices (doc : PDFDocument Page) : list nat :=
  seq 0 (getPageCount doc).

(** The pages at [indices], copied in the order given; an index without a
    page makes the copy throw. *)
Fixpoint copy_all (src : list Page) (indices : list nat) : completion (list Page) :=
  match indices with
  | [] => Normal []
  | i :: rest =>
      match src !! i with
      | None => Throw (TypeError "Cannot read properties of undefined")
      | Some p =>
          match copy_page p with
          | Throw e => Throw e
          | Normal q =>
              match copy_all src rest with
              | Throw e => Throw e
              | Normal qs => Normal (q :: qs)
              end
          end
      end
  end.

(** [dst.copyPages(src, indices)]. *)
Definition copyPages (src : PDFDocument Page) (indices : list nat) : M (list Page) :=
  await (CallCopyPages src indices) (copy_all (pages src) indices).

(** [doc.addPage(p)] appends. *)
Definition addPage (doc : PDFDocument Page) (p : Page) : PDFDocument Page :=
  {| pages := pages doc ++ [p] |}.

(** [copied.forEach((p) => doc.addPage(p))]. *)
Definition addPages (doc : PDFDocument Page) (copied : list Page) : PDFDocument Page :=
  fold_left addPage copied doc.

(** [doc.save()]. *)
Definition save (doc : PDFDocument Page) : M bytes :=
  await (CallSave doc) (serialize (pages doc)).

(** [URL.createObjectURL(blob)]: the blob is stored under a fresh URL. *)
Definition createObjectURL (blob : Blob.t) : M Url :=
  fun w =>
    (Normal (length (objectURLs w)),
     {| ui := ui w; objectURLs := objectURLs w ++ [blob];
        log := log w ++ [Call (CallCreateObjectURL blob) None] |}).

Definition pdf_mime : string := "application/pdf".

(** *** The handlers of [AIPDFLab] *)

Definition reset : M unit :=
  setFiles (fun _ => []);;
  setResultUrl None;;
  setMessage "".

(** [handleFilesSelected(e)]; [target_files] is [e.target.files], which
    may be missing. *)
Definition handleFilesSelected (target_files : option (list File.t)) : M unit :=
  let chosen := match target_files with Some fl => fl | None => [] end in
  let pdfs := List.filter (fun f => String.eqb (File.type f) "application/pdf") chosen in
  setFiles (fun s => s ++ pdfs).

(** [s.filter((_, i) => i !== index)]. *)
Fixpoint filter_index (s : list File.t) (i index : nat) : list File.t :=
  match s with
  | [] => []
  | f :: s' =>
      if negb (i =? index) then f :: filter_index s' (S i) index
      else filter_index s' (S i) index
  end.

Definition removeFile (index : nat) : M unit :=
  setFiles (fun s => filter_index s 0 index).

(** The body of the loop of [mergePdfs] (lines 65-68). *)
Definition mergePdfs_loop (file : File.t) (mergedPdf : PDFDocument Page)
    : M (PDFDocument Page) :=
  arrayBuffer ← arrayBuffer file;
  donor ← load arrayBuffer false;
  copiedPages ← copyPages donor (getPageIndices donor);
  mret (addPages mergedPdf copiedPages).

(** The [try] block of [mergePdfs] (lines 61-75). *)
Definition mergePdfs_try (files : list File.t) : M unit :=
  import_;;
  mergedPdf ← create;
  mergedPdf ← for_of files mergePdfs_loop mergedPdf;
  mergedBytes ← save mergedPdf;
  let blob := {| Blob.parts := mergedBytes; Blob.type := pdf_mime |} in
  url ← createObjectURL blob;
  setResultUrl (Some url);;
  setMessage "Unione completata. Scarica il file qui sotto.".

Definition mergePdfs : M unit :=
  fun w =>
    let files := files (ui w) in
    if length files <? 1 then
      setMessage "Carica almeno 1 PDF." w
    else
      (setProcessing true;;
       setMessage "Unione in corso...";;
       try_catch_finally
         (mergePdfs_try files)
         (fun err =>
            console_error err;;
            setMessage ("Errore durante l'unione: " ++ message_or_error err))
         (setProcessing false)) w.

(** [files[fileIndex]] where a file object is needed: reading a property
    of [undefined] throws. *)
Definition file_at (files : list File.t) (fileIndex : nat) : M File.t :=
  fun w =>
    match files !! fileIndex with
    | Some f => (Normal f, w)
    | None => (Throw (TypeError "Cannot read properties of undefined"), w)
    end.

(** The [try] block of [removePagesFromPdf] (lines 90-107). *)
Definition removePagesFromPdf_try (files : list File.t) (fileIndex : nat)
    (pagesToRemove : list Z) : M unit :=
  import_;;
  file ← file_at files fileIndex;
  arrayBuffer ← arrayBuffer file;
  src ← load arrayBuffer false;
  dst ← create;
  let total := getPageCount src in
  let toKeep := Selector.toKeep total pagesToRemove in
  copied ← copyPages src toKeep;
  let dst := addPages dst copied in
  bytes ← save dst;
  let blob := {| Blob.parts := bytes; Blob.type := pdf_mime |} in
  url ← createObjectURL blob;
  setResultUrl (Some url);;
  setMessage "Pagine rimosse. Scarica il risultato qui sotto.".

Definition removePagesFromPdf (fileIndex : nat) (pagesToRemove : list Z) : M unit :=
  fun w =>
    let files := files (ui w) in
    match files !! fileIndex with
    | None => ret tt w
    | Some _ =>
      (setProcessing true;;
       setMessage "Rimozione pagine in corso...";;
       try_catch_finally
         (removePagesFromPdf_try files fileIndex pagesToRemove)
         (fun err =>
            console_error err;;
            setMessage ("Errore: " ++ message_or_error err))
         (setProcessing false)) w
    end.

(** The [try] block of [compressPdf] (lines 123-143); [quality] is in
    scope and not referred to. *)
Definition compressPdf_try (files : list File.t) (fileIndex : nat)
    (quality : Q) : M unit :=
  import_;;
  file ← file_at files fileIndex;
  arrayBuffer ← arrayBuffer file;
  src ← load arrayBuffer true;
  outDoc ← create;
  let numPages := getPageCount src in
  copied ← copyPages src (getPageIndices src);
  let outDoc := addPages outDoc copied in
  bytes ← save outDoc;
  let blob := {| Blob.parts := bytes; Blob.type := pdf_mime |} in
  url ← createObjectURL blob;
  setResultUrl (Some url);;
  setMessage "Compressione (fallback) completata. Per compressione migliore usare endpoint server-side con PDF.js.".

Definition compressPdf (fileIndex : nat) (quality : Q) : M unit :=
  fun w =>
    let files := files (ui w) in
    match files !! fileIndex with
    | None => ret tt w
    | Some _ =>
      (setProcessing true;;
       setMessage "Compressione in corso... questo può richiedere qualche secondo.";;
       try_catch_finally
         (compressPdf_try files fileIndex quality)
         (fun err =>
            console_error err;;
            setMessage ("Errore durante la compressione: " ++ message_or_error err))
         (setProcessing false)) w
    end.

(** The default of [compressPdf]'s second parameter. *)
Definition default_quality : Q := 6 # 10.

(** *** The operations as a whole *)

Inductive Operation :=
  | Merge
  | RemovePages (fileIndex : nat) (pagesToRemove : list Z)
  | Compress (fileIndex : nat) (quality : Q).

Definition run (op : Operation) : M unit :=
  match op with
  | Merge => mergePdfs
  | RemovePages fileIndex pagesToRemove => removePagesFromPdf fileIndex pagesToRemove
  | Compress fileIndex quality => compressPdf fileIndex quality
  end.

(** The entry guard: [files.length < 1] sends [mergePdfs] back, and
    [!files[fileIndex]] the other two. *)
Definition passes_guard (op : Operation) (w : World) : bool :=
  match op with
  | Merge => negb (length (files (ui w)) <? 1)
  | RemovePages fileIndex _ | Compress fileIndex _ =>
      match files (ui w) !! fileIndex with Some _ => true | None => false end
  end.

Definition start_message (op : Operation) : string :=
  match op with
  | Merge => "Unione in corso..."
  | RemovePages _ _ => "Rimozione pagine in corso..."
  | Compress _ _ => "Compressione in corso... questo può richiedere qualche secondo."
  end.

Definition success_message (op : Operation) : string :=
  match op with
  | Merge => "Unione completata. Scarica il file qui sotto."
  | RemovePages _ _ => "Pagine rimosse. Scarica il risultato qui sotto."
  | Compress _ _ => "Compressione (fallback) completata. Per compressione migliore usare endpoint server-side con PDF.js."
  end.

Definition error_prefix (op : Operation) : string :=
  match op with
  | Merge => "Errore durante l'unione: "
  | RemovePages _ _ => "Errore: "
  | Compress _ _ => "Errore durante la compressione: "
  end.

Definition try_block (op : Operation) (files : list File.t) : M unit :=
  match op with
  | Merge => mergePdfs_try files
  | RemovePages fileIndex pagesToRemove => removePagesFromPdf_try files fileIndex pagesToRemove
  | Compress fileIndex quality => compressPdf_try files fileIndex quality
  end.

(** The shape the three operations share once past their guard. *)
Definition guarded (start : string) (body : M unit) (prefix : string) : M unit :=
  setProcessing true;;
  setMessage start;;
  try_catch_finally body
    (fun err => console_error err;; setMessage (prefix ++ message_or_error err))
    (setProcessing false).

(** The world once an operation has announced itself. *)
Definition started (w : World) (start : string) : World :=
  {| ui := {| files := files (ui w); processing := true;
              message := start; resultUrl := resultUrl (ui w) |};
     objectURLs := objectURLs w;
     log := (log w ++ [SetProcessing true]) ++ [SetMessage start] |}.

(** *** Observations on runs *)

(** The calls that come before the serializer. *)
Definition before_save (c : ExternalCall) : bool :=
  match c with
  | CallSave _ | CallCreateObjectURL _ => false
  | _ => true
  end.

(** Events of calls that returned, all of them before the serializer. *)
Definition calls_ok (evs : list Event) : Prop :=
  Forall (fun ev => ∃ c, ev = Call c None ∧ before_save c = true) evs.

(** A program that only awaits calls: it leaves the UI state and the URL
    store alone, and when it throws, the error is the one its last call
    raised. *)
Definition quiet {A} (m : M A) : Prop :=
  ∀ w,
    match m w with
    | (Normal _, w') => ∃ evs, calls_ok evs ∧ w' = logged w evs
    | (Throw e, w') => ∃ evs c, calls_ok evs ∧ w' = logged w (evs ++ [Call c (Some e)])
    end.

Definition artifact (data : bytes) : Blob.t :=
  {| Blob.parts := data; Blob.type := pdf_mime |}.

(** The world once a document has been saved and published. *)
Definition published (w : World) (evs : list Event) (doc : PDFDocument Page)
    (data : bytes) (ok : string) : World :=
  {| ui := {| files := files (ui w); processing := processing (ui w);
              message := ok; resultUrl := Some (length (objectURLs w)) |};
     objectURLs := objectURLs w ++ [artifact data];
     log := log w ++ evs ++
            [Call (CallSave doc) None;
             Call (CallCreateObjectURL (artifact data)) None;
             SetResultUrl (Some (length (objectURLs w)));
             SetMessage ok] |}.

(** A [try] block that either throws out of a call, having changed
    nothing, or saves one document and publishes its bytes. *)
Definition publishes (ok : string) (m : M unit) : Prop :=
  ∀ w,
    match m w with
    | (Normal _, w') => ∃ evs doc data,
        calls_ok evs ∧ serialize (pages doc) = Normal data ∧
        w' = published w evs doc data ok
    | (Throw e, w') => ∃ evs c, calls_ok evs ∧ w' = logged w (evs ++ [Call c (Some e)])
    end.

(** The calls of a page removal or a compression that goes through. *)
Definition single_calls (f : File.t) (data : bytes) (ignoreEncryption : bool)
    (src : list Page) (indices : list nat) : list Event :=
  [Call CallImport None;
   Call (CallArrayBuffer f) None;
   Call (CallLoad data ignoreEncryption) None;
   Call CallCreate None;
   Call (CallCopyPages {| pages := src |} indices) None].

(** The two ways an operation ends. *)
Definition succeeded (op : Operation) (w w' : World) (evs calls : list Event)
    (doc : PDFDocument Page) (data : bytes) : Prop :=
  calls_ok calls ∧ serialize (pages doc) = Normal data ∧
  evs = [SetProcessing true; SetMessage (start_message op)] ++ calls ++
        [Call (CallSave doc) None;
         Call (CallCreateObjectURL (artifact data)) None;
         SetResultUrl (Some (length (objectURLs w)));
         SetMessage (success_message op);
         SetProcessing false] ∧
  objectURLs w' = objectURLs w ++ [artifact data] ∧
  ui w' = {| files := files (ui w); processing := false;
             message := success_message op;
             resultUrl := Some (length (objectURLs w)) |}.

Definition failed (op : Operation) (w w' : World) (evs : list Event)
    (err : JsError) : Prop :=
  ∃ calls c,
    calls_ok calls ∧
    evs = [SetProcessing true; SetMessage (start_message op)] ++ calls ++
          [Call c (Some err);
           ConsoleError err;
           SetMessage (error_prefix op ++ message_or_error err);
           SetProcessing false] ∧
    objectURLs w' = objectURLs w ∧
    ui w' = {| files := files (ui w); processing := false;
               message := (error_prefix op ++ message_or_error err)%string;
               resultUrl := resultUrl (ui w) |}.

(** The phases of the operation state machine, and the event that enters
    each. *)
Inductive Phase :=
  | Idle
  | Processing
  | Success (artifact : option Url)
  | Failed (error : JsError).

Definition phase_of (ev : Event) : option Phase :=
  match ev with
  | SetProcessing true => Some Processing
  | SetProcessing false => Some Idle
  | SetResultUrl u => Some (Success u)
  | ConsoleError err => Some (Failed err)
  | _ => None
  end.

Definition phases (evs : list Event) : list Phase := omap phase_of evs.

(** The processing flag after some events, from its value before them. *)
Definition flag_after (evs : list Event) (flag : bool) : bool :=
  fold_left (fun b ev => match ev with SetProcessing b' => b' | _ => b end) evs flag.

(** The documents handed to the serializer. *)
Definition saved (evs : list Event) : list (PDFDocument Page) :=
  omap (fun ev => match ev with Call (CallSave doc) _ => Some doc | _ => None end) evs.

(** The library calls made. *)
Definition calls (evs : list Event) : list ExternalCall :=
  omap (fun ev => match ev with Call c _ => Some c | _ => None end) evs.

(** How a source file turns into a document: its bytes are read and parsed. *)
Definition loads (ignoreEncryption : bool) (f : File.t) (doc : list Page) : Prop :=
  ∃ data, File.arrayBuffer f = Normal data ∧ parse data ignoreEncryption = Normal doc.

(** The page-copy primitive, as a relation between a page and its copy. *)
Definition copied (p q : Page) : Prop := copy_page p = Normal q.

(** The Document Assembler as the specification states it: from an empty
    document, for each (source, indices) pair in order, the pages at the
    indices are copied and appended in the order given. *)
Fixpoint assemble_spec (pairs : list (list Page * list nat)) (out : list Page)
    : completion (list Page) :=
  match pairs with
  | [] => Normal out
  | (src, indices) :: rest =>
      match copy_all src indices with
      | Normal ps => assemble_spec rest (out ++ ps)
      | Throw e => Throw e
      end
  end.

Definition copy_all_assembly (src : list Page) : completion (list Page) :=
  assemble_spec [(src, seq 0 (length src))] [].

(** *** The handlers together *)

(** The ways into the component: the reset button, the file picker, the
    remove button of a file, and the three operations. *)
Inductive Handler :=
  | OnReset
  | OnFilesSelected (target_files : option (list File.t))
  | OnRemoveFile (index : nat)
  | OnOperation (op : Operation).

Definition handle (h : Handler) : M unit :=
  match h with
  | OnReset => reset
  | OnFilesSelected target_files => handleFilesSelected target_files
  | OnRemoveFile index => removeFile index
  | OnOperation op => run op
  end.

(** Handlers run one after another, each to its end before the next. *)
Fixpoint handle_all (hs : list Handler) (w : World) : World :=
  match hs with
  | [] => w
  | h :: hs' => handle_all hs' (snd (handle h w))
  end.

(** The state of the first render (lines 29-32), with nothing stored and
    nothing done. *)
Definition initial : World :=
  {| ui := {| files := []; processing := false; message := ""; resultUrl := None |};
     objectURLs := [];
     log := [] |}.

(** The events a program adds to the log. *)
Definition events_of (m : M unit) (w : World) : list Event :=
  drop (length (log w)) (log (snd (m w))).

(** *** The controls of the render (lines 194-259)

    The text of the file size is left out. *)

Record FileRow := {
  row_name : string;
  row_remove : Handler;
  row_remove_page : Handler;
  row_compress : Handler
}.

Record View := {
  view_rows : list FileRow;
  merge_disabled : bool;
  merge_label : string;
  message_box : option string;
  download : option Url
}.

Definition render (s : AppState) : View :=
  {| view_rows :=
       if 0 <? length (files s) then
         imap (fun i f =>
                 {| row_name := File.name f;
                    row_remove := OnRemoveFile i;
                    row_remove_page := OnOperation (RemovePages i [2%Z]);
                    row_compress := OnOperation (Compress i (6 # 10)) |})
              (files s)
       else [];
     merge_disabled := processing s || (length (files s) <? 1);
     merge_label := if processing s then "Processando..." else "Unisci PDF";
     message_box := if String.eqb (message s) "" then None else Some (message s);
     download := resultUrl s |}.

(** The pending list holds only files that advertise the PDF type. *)
Definition only_pdfs (fs : list File.t) : Prop :=
  Forall (fun f => File.type f = "application/pdf"%string) fs.

(** The result handle, when set, names a stored blob of the PDF type. *)
Definition result_resolves (w : World) : Prop :=
  ∀ u, resultUrl (ui w) = Some u →
       ∃ blob, objectURLs w !! u = Some blob ∧ Blob.type blob = pdf_mime.

End Model.
End App.

(** ** A fake pdf-lib for running the component

    A document is stored as the byte [%] followed by one byte per page;
    parsing checks the header, copying a page yields the page, and the
    serializer writes the header back. *)

Module Fake.

Definition header : Byte.byte := Byte.x25.

Definition parse_fake (data : bytes) (ignoreEncryption : bool) : completion (list Byte.byte) :=
  match data with
  | b :: ps =>
      if Byte.eqb b header then Normal ps
      else Throw {| err_name := "Error"; err_message := "No PDF header found" |}
  | [] => Throw {| err_name := "Error"; err_message := "No PDF header found" |}
  end.

#[export] Instance lib : PdfLib Byte.byte := {|
  import_pdf_lib := Normal tt;
  parse := parse_fake;
  copy_page := fun p => Normal p;
  serialize := fun ps => Normal (header :: ps)
|}.

Definition pdf_file (name : string) (ps : list Byte.byte) : File.t :=
  {| File.name := name; File.size := S (length ps);
     File.type := "application/pdf";
     File.arrayBuffer := Normal (header :: ps) |}.

Definition text_file (name : string) (data : bytes) : File.t :=
  {| File.name := name; File.size := length data;
     File.type := "text/plain";
     File.arrayBuffer := Normal data |}.

(** A file that advertises the PDF type and holds other bytes. *)
Definition mislabelled_file (name : string) (data : bytes) : File.t :=
  {| File.name := name; File.size := length data;
     File.type := "application/pdf";
     File.arrayBuffer := Normal data |}.

Definition idle (fs : list File.t) : App.World (Page := Byte.byte) :=
  {| App.ui := {| App.files := fs; App.processing := false;
                  App.message := ""; App.resultUrl := None |};
     App.objectURLs := [];
     App.log := [] |}.

Definition docA : list Byte.byte := [Byte.x01; Byte.x02; Byte.x03; Byte.x04; Byte.x05].
Definition docB : list Byte.byte := [Byte.x0a; Byte.x0b].

Definition two_files : App.World (Page := Byte.byte) :=
  idle [pdf_file "a.pdf" docA; pdf_file "b.pdf" docB].

Definition one_file : App.World (Page := Byte.byte) :=
  idle [pdf_file "a.pdf" docA].

Definition bad_second_file : App.World (Page := Byte.byte) :=
  idle [pdf_file "a.pdf" docA; mislabelled_file "b.pdf" docB].

Definition no_files : App.World (Page := Byte.byte) := idle [].

(** The library in an environment where the dynamic import fails. *)
Definition import_error : JsError :=
  {| err_name := "TypeError"; err_message := "Failed to fetch dynamically imported module" |}.

Definition offline : PdfLib Byte.byte := {|
  import_pdf_lib := Throw import_error;
  parse := parse_fake;
  copy_page := fun p => Normal p;
  serialize := fun ps => Normal (header :: ps)
|}.

Definition docC : list Byte.byte := [Byte.x0c].

Definition bad_middle_file : App.World (Page := Byte.byte) :=
  idle [pdf_file "a.pdf" docA; mislabelled_file "b.pdf" docB; pdf_file "c.pdf" docC].

End Fake.

(** * Facts *)

(** ** The page selector *)

Module SelectorFacts.
Import Selector.

Lemma includes_elem_of arr x : includes arr x = bool_decide (x ∈ arr).
Proof.
  unfold includes. induction arr as [|a arr IH].
  - symmetry. apply bool_decide_eq_false, not_elem_of_nil.
  - cbn [existsb]. rewrite IH. destruct (Z.eqb_spec x a) as [->|Hne]; cbn [orb].
    + symmetry. apply bool_decide_eq_true. left.
    + apply bool_decide_ext. rewrite elem_of_cons.
      split; [auto | intros [?|?]; [contradiction | assumption]].
Qed.

Lemma loop_body_spec R i acc :
  loop_body R i acc =
  acc ++ List.filter (fun i => negb (bool_decide (Z.of_nat i + 1 ∈ R)%Z)) [i].
Proof.
  unfold loop_body. rewrite includes_elem_of. simpl.
  destruct (bool_decide _); simpl; [by rewrite app_nil_r | done].
Qed.

(** The loop never runs out of fuel when [total - i] iterations are allowed. *)
Lemma for_loop_spec R total : ∀ fuel i acc,
  total - i ≤ fuel →
  for_loop fuel total R i acc =
  acc ++ List.filter (fun i => negb (bool_decide (Z.of_nat i + 1 ∈ R)%Z))
           (seq i (total - i)).
Proof.
  induction fuel as [|fuel IH]; intros i acc Hfuel; simpl.
  - replace (total - i) with 0 by lia. simpl. by rewrite app_nil_r.
  - destruct (Nat.ltb_spec i total) as [Hlt|Hge].
    + rewrite IH by lia. rewrite loop_body_spec, <- app_assoc.
      f_equal. replace (total - i) with (S (total - S i)) by lia.
      simpl. by destruct (bool_decide _).
    + replace (total - i) with 0 by lia. simpl. by rewrite app_nil_r.
Qed.

Lemma toKeep_keep_spec N R : toKeep N R = keep_spec N R.
Proof.
  unfold toKeep, keep_spec. rewrite for_loop_spec by lia.
  simpl. by rewrite Nat.sub_0_r.
Qed.

Lemma elem_of_keep_spec N R i :
  i ∈ keep_spec N R ↔ i < N ∧ (Z.of_nat i + 1)%Z ∉ R.
Proof.
  unfold keep_spec. rewrite list_elem_of_In, filter_In, in_seq.
  rewrite negb_true_iff, bool_decide_eq_false. split; intros [? ?]; split; try done; lia.
Qed.

Lemma filter_ext_seq (f g : nat → bool) a n :
  (∀ i, a ≤ i < a + n → f i = g i) →
  List.filter f (seq a n) = List.filter g (seq a n).
Proof.
  intros H. apply List.filter_ext_in. intros i Hi. apply in_seq in Hi. apply H. lia.
Qed.

Lemma elem_of_inRange N R r :
  r ∈ inRange N R ↔ r ∈ R ∧ (1 ≤ r ≤ Z.of_nat N)%Z.
Proof.
  unfold inRange. rewrite !list_elem_of_In, filter_In, andb_true_iff.
  rewrite Z.leb_le, Z.leb_le. tauto.
Qed.

Lemma keep_spec_inRange N R : keep_spec N R = keep_spec N (inRange N R).
Proof.
  unfold keep_spec. apply filter_ext_seq. intros i Hi. f_equal.
  apply bool_decide_ext. rewrite elem_of_inRange. split; [|tauto].
  intros H; split; [done | lia].
Qed.


Lemma keep_spec_nil N : keep_spec N [] = seq 0 N.
Proof.
  unfold keep_spec. rewrite <- (List.filter_true (seq 0 N)) at 2.
  apply List.filter_ext. intros i. apply negb_true_iff, bool_decide_eq_false, not_elem_of_nil.
Qed.

Lemma length_keep_removed N R : length (keep_spec N R) + length (removed N R) = N.
Proof.
  unfold keep_spec, removed.
  rewrite Nat.add_comm, List.filter_length. apply length_seq.
Qed.

Lemma NoDup_removed N R : NoDup (removed N R).
Proof.
  unfold removed. apply NoDup_ListNoDup, List.NoDup_filter, NoDup_ListNoDup, NoDup_seq.
Qed.

Lemma elem_of_removed N R i :
  i ∈ removed N R ↔ i < N ∧ (Z.of_nat i + 1)%Z ∈ R.
Proof.
  unfold removed. rewrite list_elem_of_In, filter_In, in_seq, bool_decide_eq_true.
  split; intros [? ?]; split; try done; lia.
Qed.

Lemma elem_of_pageNumbers N (r : Z) : r ∈ pageNumbers N ↔ (1 ≤ r ≤ Z.of_nat N)%Z.
Proof.
  unfold pageNumbers. rewrite elem_of_list_to_set, list_elem_of_fmap. split.
  - intros (k & -> & Hk). apply elem_of_seq in Hk. lia.
  - intros Hr. exists (Z.to_nat r). split; [lia | apply elem_of_seq; lia].
Qed.

Lemma removed_set N R :
  (list_to_set R ∩ pageNumbers N : gset Z) =
  list_to_set ((fun i => (Z.of_nat i + 1)%Z) <$> removed N R).
Proof.
  apply set_eq. intros r.
  rewrite elem_of_intersection, !elem_of_list_to_set, elem_of_pageNumbers, list_elem_of_fmap.
  split.
  - intros [HR Hr]. exists (Z.to_nat (r - 1)). split; [lia |].
    apply elem_of_removed. split; [lia |].
    by replace (Z.of_nat (Z.to_nat (r - 1)) + 1)%Z with r by lia.
  - intros (i & -> & Hi). apply elem_of_removed in Hi as [? ?]. split; [done | lia].
Qed.

Lemma size_removed N R :
  size (list_to_set R ∩ pageNumbers N : gset Z) = length (removed N R).
Proof.
  rewrite removed_set, size_list_to_set.
  - apply length_fmap.
  - apply NoDup_fmap_2; [intros i j Hij; lia | apply NoDup_removed].
Qed.

Lemma StronglySorted_seq a n : StronglySorted lt (seq a n).
Proof.
  revert a. induction n as [|n IH]; intros a; simpl; constructor; [apply IH |].
  apply Forall_forall. intros x Hx. apply elem_of_seq in Hx. lia.
Qed.

Lemma StronglySorted_filter {A} (R : A → A → Prop) (f : A → bool) l :
  StronglySorted R l → StronglySorted R (List.filter f l).
Proof.
  induction 1 as [|a l Hl IH Ha]; simpl; [constructor |].
  destruct (f a); [| done]. constructor; [done |].
  apply Forall_forall. intros x Hx. apply list_elem_of_In, filter_In in Hx as [Hx _].
  rewrite Forall_forall in Ha. apply Ha. by apply list_elem_of_In.
Qed.

(** C1: for every page count [N] and removal request [R] the loop of
    [removePagesFromPdf] yields the list comprehension
    [[i for i in 0..N-1 if (i+1) not in R]]; numbers of [R] outside
    [1..N] make no difference, an empty [R] keeps all [N] indices, and the
    two scenarios of the specification evaluate as written. *)
Theorem toKeep_is_comprehension :
  (∀ (N : nat) (R : list Z), toKeep N R = keep_spec N R) ∧
  (∀ (N : nat) (R : list Z) (i : nat),
     i ∈ toKeep N R ↔ i < N ∧ (Z.of_nat i + 1)%Z ∉ R) ∧
  (∀ (N : nat) (R : list Z), toKeep N R = toKeep N (inRange N R)) ∧
  (∀ N : nat, toKeep N [] = seq 0 N) ∧
  toKeep 5 [2%Z] = [0; 2; 3; 4] ∧
  toKeep 5 [99%Z] = [0; 1; 2; 3; 4].
Proof.
  split; [apply toKeep_keep_spec |].
  split; [intros N R i; rewrite toKeep_keep_spec; apply elem_of_keep_spec |].
  split; [intros N R; rewrite !toKeep_keep_spec; apply keep_spec_inRange |].
  split; [intros N; rewrite toKeep_keep_spec; apply keep_spec_nil |].
  split; reflexivity.
Qed.

(** C2: the keep-list has [N - |R ∩ {1..N}|] elements and is strictly
    increasing. *)
Theorem toKeep_length_increasing (N : nat) (R : list Z) :
  length (toKeep N R) = N - size (list_to_set R ∩ pageNumbers N : gset Z) ∧
  StronglySorted lt (toKeep N R).
Proof.
  rewrite toKeep_keep_spec. split.
  - rewrite size_removed. pose proof (length_keep_removed N R). lia.
  - apply StronglySorted_filter, StronglySorted_seq.
Qed.

End SelectorFacts.

(** ** The monad and the calls *)

Module AppFacts.
Import App.

Section Calls.
Context {Page : Type} `{!PdfLib Page}.
Local Abbreviation World := (@World Page).
Local Abbreviation M := (@M Page).
Local Abbreviation Event := (@Event Page).
Local Abbreviation ExternalCall := (@ExternalCall Page).
Local Abbreviation PDFDocument := (PDFDocument Page).

Lemma logged_logged (w : World) evs1 evs2 :
  logged (logged w evs1) evs2 = logged w (evs1 ++ evs2).
Proof. unfold logged; simpl. by rewrite app_assoc. Qed.

Lemma calls_ok_nil : calls_ok ([] : list Event).
Proof. constructor. Qed.

Lemma calls_ok_one (c : ExternalCall) :
  before_save c = true → calls_ok [Call c None].
Proof. intros Hc. constructor; [by exists c | constructor]. Qed.

Lemma calls_ok_app (evs1 evs2 : list Event) : calls_ok evs1 → calls_ok evs2 → calls_ok (evs1 ++ evs2).
Proof. intros H1 H2. by apply Forall_app. Qed.

Lemma bind_run {A B} (m : M A) (k : A → M B) w :
  (m ≫= k) w =
  match m w with
  | (Normal a, w') => k a w'
  | (Throw e, w') => (Throw e, w')
  end.
Proof. reflexivity. Qed.

Lemma quiet_ret {A} (a : A) : quiet (Page := Page) (mret a).
Proof.
  intros w. exists []. split; [apply calls_ok_nil |].
  unfold logged. destruct w; simpl. by rewrite app_nil_r.
Qed.

Lemma quiet_await {A} (c : ExternalCall) (r : completion A) :
  before_save c = true → quiet (await c r).
Proof.
  intros Hc w. unfold await. destruct r as [a|e].
  - exists [Call c None]. split; [by apply calls_ok_one | done].
  - exists [], c. split; [apply calls_ok_nil | done].
Qed.

Lemma quiet_bind {A B} (m : M A) (k : A → M B) :
  quiet m → (∀ a, quiet (k a)) → quiet (m ≫= k).
Proof.
  intros Hm Hk w. rewrite bind_run. specialize (Hm w).
  destruct (m w) as [[a|e] w1]; [| done].
  destruct Hm as (evs1 & Hok1 & ->). specialize (Hk a (logged w evs1)).
  destruct (k a (logged w evs1)) as [[b|e] w2].
  - destruct Hk as (evs2 & Hok2 & ->). exists (evs1 ++ evs2).
    split; [by apply calls_ok_app | apply logged_logged].
  - destruct Hk as (evs2 & c & Hok2 & ->). exists (evs1 ++ evs2), c.
    split; [by apply calls_ok_app |]. by rewrite logged_logged, app_assoc.
Qed.

Lemma quiet_for_of {A S} (xs : list A) (body : A → S → M S) :
  (∀ x s, quiet (body x s)) → ∀ s, quiet (for_of xs body s).
Proof.
  intros Hbody. induction xs as [|x xs IH]; intros s; simpl.
  - apply quiet_ret.
  - apply quiet_bind; [apply Hbody | apply IH].
Qed.

Lemma quiet_file_at fs i f : fs !! i = Some f → quiet (Page := Page) (file_at fs i).
Proof.
  intros Hf w. unfold file_at. rewrite Hf. apply (quiet_ret f w).
Qed.

Lemma file_at_run fs i f (w : World) : fs !! i = Some f → file_at fs i w = (Normal f, w).
Proof. intros Hf. unfold file_at. by rewrite Hf. Qed.

Lemma quiet_import : quiet (Page := Page) import_.
Proof. by apply quiet_await. Qed.

Lemma quiet_arrayBuffer f : quiet (Page := Page) (arrayBuffer f).
Proof. by apply quiet_await. Qed.

Lemma quiet_load data ie : quiet (load data ie).
Proof. by apply quiet_await. Qed.

Lemma quiet_create : quiet (Page := Page) create.
Proof. by apply quiet_await. Qed.

Lemma quiet_copyPages (src : PDFDocument) indices : quiet (copyPages src indices).
Proof. by apply quiet_await. Qed.

(** The tail every [try] block ends with: save, wrap, publish. *)
Lemma publishes_save (doc : PDFDocument) ok :
  publishes ok
    (data ← save doc;
     url ← createObjectURL {| Blob.parts := data; Blob.type := pdf_mime |};
     setResultUrl (Some url);;
     setMessage ok).
Proof.
  intros w. rewrite bind_run. unfold save, await.
  destruct (serialize (pages doc)) as [data|e] eqn:Hser.
  - exists [], doc, data. split; [apply calls_ok_nil |]. split; [done |].
    unfold published, logged; simpl. by rewrite <- !app_assoc.
  - exists [], (CallSave doc). split; [apply calls_ok_nil | done].
Qed.

Lemma publishes_bind {A} (m : M A) (k : A → M unit) ok :
  quiet m → (∀ a, publishes ok (k a)) → publishes ok (m ≫= k).
Proof.
  intros Hm Hk w. rewrite bind_run. specialize (Hm w).
  destruct (m w) as [[a|e] w1]; [| done].
  destruct Hm as (evs1 & Hok1 & ->). specialize (Hk a (logged w evs1)).
  destruct (k a (logged w evs1)) as [[b|e] w2].
  - destruct Hk as (evs2 & doc & data & Hok2 & Hser & ->).
    exists (evs1 ++ evs2), doc, data. split; [by apply calls_ok_app |]. split; [done |].
    unfold published, logged; simpl. by rewrite <- !app_assoc.
  - destruct Hk as (evs2 & c & Hok2 & ->). exists (evs1 ++ evs2), c.
    split; [by apply calls_ok_app |]. by rewrite logged_logged, app_assoc.
Qed.

Lemma publishes_mergePdfs_try fs :
  publishes (success_message Merge) (mergePdfs_try fs).
Proof.
  unfold mergePdfs_try.
  apply publishes_bind; [apply quiet_import | intros _].
  apply publishes_bind; [apply quiet_create | intros mergedPdf].
  apply publishes_bind; [| intros doc; apply publishes_save].
  apply quiet_for_of. intros file acc. unfold mergePdfs_loop.
  apply quiet_bind; [apply quiet_arrayBuffer | intros data].
  apply quiet_bind; [apply quiet_load | intros donor].
  apply quiet_bind; [apply quiet_copyPages | intros copiedPages].
  apply quiet_ret.
Qed.

Lemma publishes_removePagesFromPdf_try fs i R f :
  fs !! i = Some f →
  publishes (success_message (RemovePages i R)) (removePagesFromPdf_try fs i R).
Proof.
  intros Hf. unfold removePagesFromPdf_try.
  apply publishes_bind; [apply quiet_import | intros _].
  apply publishes_bind; [by eapply quiet_file_at | intros file].
  apply publishes_bind; [apply quiet_arrayBuffer | intros data].
  apply publishes_bind; [apply quiet_load | intros src].
  apply publishes_bind; [apply quiet_create | intros dst].
  apply publishes_bind; [apply quiet_copyPages | intros copiedPages].
  apply publishes_save.
Qed.

Lemma publishes_compressPdf_try fs i q f :
  fs !! i = Some f →
  publishes (success_message (Compress i q)) (compressPdf_try fs i q).
Proof.
  intros Hf. unfold compressPdf_try.
  apply publishes_bind; [apply quiet_import | intros _].
  apply publishes_bind; [by eapply quiet_file_at | intros file].
  apply publishes_bind; [apply quiet_arrayBuffer | intros data].
  apply publishes_bind; [apply quiet_load | intros src].
  apply publishes_bind; [apply quiet_create | intros outDoc].
  apply publishes_bind; [apply quiet_copyPages | intros copiedPages].
  apply publishes_save.
Qed.

(** *** From the [try] block to the whole operation *)

Lemma guarded_run start (body : M unit) prefix w :
  guarded start body prefix w =
  match body (started w start) with
  | (Normal a, w1) => (Normal a, snd (setProcessing false w1))
  | (Throw err, w1) =>
      (Normal tt,
       snd (setProcessing false
              (snd ((console_error err;;
                     setMessage (prefix ++ message_or_error err)) w1))))
  end.
Proof.
  unfold guarded, try_catch_finally, mbind, M_bind, bind.
  unfold setProcessing at 1, setMessage at 1. unfold mbind, M_bind, bind, update, emit, logged.
  cbn [ui objectURLs log files processing message resultUrl].
  change {| ui := _; objectURLs := objectURLs w; log := _ |} with (started w start).
  destruct (body _) as [[a|err] w1]; reflexivity.
Qed.

Lemma guarded_published op (body : M unit) (w : World) calls doc data :
  calls_ok calls → serialize (pages doc) = Normal data →
  body (started w (start_message op)) =
    (Normal tt, published (started w (start_message op)) calls doc data (success_message op)) →
  ∃ w' evs,
    guarded (start_message op) body (error_prefix op) w = (Normal tt, w') ∧
    log w' = log w ++ evs ∧
    succeeded op w w' evs calls doc data.
Proof.
  intros Hok Hser Hbody. rewrite guarded_run, Hbody.
  eexists _, _. split; [reflexivity |]. simpl. split.
  - rewrite <- !app_assoc. reflexivity.
  - repeat split; done.
Qed.

Lemma guarded_outcome op (body : M unit) :
  publishes (success_message op) body →
  ∀ w, ∃ w' evs,
    guarded (start_message op) body (error_prefix op) w = (Normal tt, w') ∧
    log w' = log w ++ evs ∧
    ((∃ calls doc data, succeeded op w w' evs calls doc data) ∨
     ∃ err, failed op w w' evs err).
Proof.
  intros Hbody w. rewrite guarded_run.
  match goal with |- context [body ?w0] => specialize (Hbody w0); destruct (body w0) as [[[]|err] w1] end.
  - destruct Hbody as (calls & doc & data & Hok & Hser & ->).
    eexists _, _. split; [reflexivity |]. simpl. split.
    + rewrite <- !app_assoc. reflexivity.
    + left. exists calls, doc, data. repeat split; try done.
  - destruct Hbody as (calls & c & Hok & ->).
    eexists _, _. split; [reflexivity |]. simpl. split.
    + rewrite <- !app_assoc. reflexivity.
    + right. exists err, calls, c. repeat split; try done.
Qed.

Lemma run_guarded op (w : World) :
  passes_guard op w = true →
  run op w = guarded (start_message op) (try_block op (files (ui w))) (error_prefix op) w.
Proof.
  destruct op as [|i R|i q]; simpl; intros Hg.
  - unfold mergePdfs. apply negb_true_iff in Hg. by rewrite Hg.
  - unfold removePagesFromPdf. by destruct (files (ui w) !! i).
  - unfold compressPdf. by destruct (files (ui w) !! i).
Qed.

Lemma publishes_try_block op (w : World) :
  passes_guard op w = true →
  publishes (success_message op) (try_block op (files (ui w))).
Proof.
  destruct op as [|i R|i q]; simpl; intros Hg.
  - apply publishes_mergePdfs_try.
  - destruct (files (ui w) !! i) as [f|] eqn:Hf; [| done].
    by eapply publishes_removePagesFromPdf_try.
  - destruct (files (ui w) !! i) as [f|] eqn:Hf; [| done].
    by eapply publishes_compressPdf_try.
Qed.

(** Every operation past its guard returns, and ends in one of two ways. *)
Lemma operation_outcome op (w : World) :
  passes_guard op w = true →
  ∃ w' evs,
    run op w = (Normal tt, w') ∧
    log w' = log w ++ evs ∧
    ((∃ calls doc data, succeeded op w w' evs calls doc data) ∨
     ∃ err, failed op w w' evs err).
Proof.
  intros Hg. rewrite run_guarded by done.
  apply guarded_outcome. by apply publishes_try_block.
Qed.

(** *** Runs in which every call returns *)

Lemma addPages_pages (doc : PDFDocument) ps :
  addPages doc ps = {| pages := pages doc ++ ps |}.
Proof.
  unfold addPages. revert doc. induction ps as [|p ps IH]; intros doc; simpl.
  - destruct doc; simpl. by rewrite app_nil_r.
  - rewrite IH. simpl. by rewrite <- app_assoc.
Qed.

Lemma copy_all_from pre : ∀ (src out : list Page),
  Forall2 copied src out →
  copy_all (pre ++ src) (seq (length pre) (length src)) = Normal out.
Proof.
  intros src out Hcp. revert pre.
  induction Hcp as [|p q src out Hpq Hcp IH]; intros pre; simpl; [done |].
  rewrite list_lookup_middle by done. rewrite Hpq.
  specialize (IH (pre ++ [p])). rewrite <- app_assoc, length_app in IH. simpl in IH.
  rewrite Nat.add_1_r in IH. by rewrite IH.
Qed.

(** Copying the pages at all indices copies each page, in order. *)
Lemma copy_all_indices (src out : list Page) :
  Forall2 copied src out → copy_all src (seq 0 (length src)) = Normal out.
Proof. apply (copy_all_from []). Qed.

Lemma copy_all_Forall2 (src : list Page) : ∀ indices out,
  copy_all src indices = Normal out →
  Forall2 (fun i q => ∃ p, src !! i = Some p ∧ copied p q) indices out.
Proof.
  induction indices as [|i indices IH]; intros out; simpl.
  - intros [= <-]. constructor.
  - destruct (src !! i) as [p|] eqn:Hp; [| done].
    destruct (copy_page p) as [q|] eqn:Hq; [| done].
    destruct (copy_all src indices) as [qs|]; [| done].
    intros [= <-]. constructor; [by exists p | by apply IH].
Qed.

Lemma copies_exist (src : list Page) :
  Forall (fun p => ∃ q, copied p q) src → ∃ out, Forall2 copied src out.
Proof.
  induction 1 as [|p src [q Hq] _ [out IH]]; [by exists [] |].
  exists (q :: out). by constructor.
Qed.

Lemma Forall2_copied_faithful (src out : list Page) :
  (∀ p q, copied p q → q = p) → Forall2 copied src out → out = src.
Proof.
  intros Hid. induction 1 as [|p q src out Hpq _ IH]; [done |].
  by rewrite (Hid p q Hpq), IH.
Qed.

Lemma length_concat_sum (docs : list (list Page)) :
  length (concat docs) = sum_list (length <$> docs).
Proof.
  induction docs as [|d docs IH]; simpl; [done |].
  by rewrite length_app, IH.
Qed.

Lemma publish_run data ok (w : World) :
  (url ← createObjectURL {| Blob.parts := data; Blob.type := pdf_mime |};
   setResultUrl (Some url);;
   setMessage ok) w =
  (Normal tt,
   {| ui := {| files := files (ui w); processing := processing (ui w);
               message := ok; resultUrl := Some (length (objectURLs w)) |};
      objectURLs := objectURLs w ++ [artifact data];
      log := log w ++ [Call (CallCreateObjectURL (artifact data)) None;
                       SetResultUrl (Some (length (objectURLs w)));
                       SetMessage ok] |}).
Proof.
  unfold mbind, M_bind, bind, createObjectURL, setResultUrl, setMessage.
  unfold mbind, M_bind, bind, update, emit, logged. simpl.
  by rewrite <- !app_assoc.
Qed.

Lemma mergePdfs_loop_run f data (d o : list Page) acc (w : World) :
  File.arrayBuffer f = Normal data →
  parse data false = Normal d →
  Forall2 copied d o →
  mergePdfs_loop f acc w =
  (Normal {| pages := pages acc ++ o |},
   logged w [Call (CallArrayBuffer f) None; Call (CallLoad data false) None;
             Call (CallCopyPages {| pages := d |} (seq 0 (length d))) None]).
Proof.
  intros Hbuf Hparse Ho. unfold mergePdfs_loop. rewrite !bind_run.
  unfold arrayBuffer, await. rewrite Hbuf.
  rewrite !bind_run. unfold load, await. rewrite Hparse.
  rewrite !bind_run. unfold copyPages, getPageIndices, getPageCount, await.
  cbn [pages]. rewrite (copy_all_indices d o Ho).
  unfold mret, M_ret, ret. by rewrite addPages_pages, !logged_logged.
Qed.

(** The loop of [mergePdfs] when every source loads and copies. *)
Lemma merge_loop_run (fs : list File.t) : ∀ (docs : list (list Page)) out acc (w : World),
  Forall2 (loads false) fs docs →
  Forall2 copied (concat docs) out →
  ∃ evs, calls_ok evs ∧
    for_of fs mergePdfs_loop acc w =
    (Normal {| pages := pages acc ++ out |}, logged w evs).
Proof.
  induction fs as [|f fs IH]; intros docs out acc w Hload Hcp.
  - apply Forall2_nil_inv_l in Hload as ->. apply Forall2_nil_inv_l in Hcp as ->.
    exists []. split; [apply calls_ok_nil |]. simpl. unfold mret, M_ret, ret, logged.
    destruct acc, w; simpl. by rewrite !app_nil_r.
  - apply Forall2_cons_inv_l in Hload as (d & docs' & (data & Hbuf & Hparse) & Hload & ->).
    simpl in Hcp. apply Forall2_app_inv_l in Hcp as (o & out' & Ho & Hout' & ->).
    set (step := [Call (CallArrayBuffer f) None; Call (CallLoad data false) None;
                  Call (CallCopyPages {| pages := d |} (seq 0 (length d))) None]).
    destruct (IH docs' out' {| pages := pages acc ++ o |} (logged w step) Hload Hout')
      as (evs & Hok & Hrun).
    exists (step ++ evs). split.
    + apply calls_ok_app; [| exact Hok].
      repeat (constructor; [eexists; split; reflexivity |]). constructor.
    + cbn [for_of]. rewrite bind_run, (mergePdfs_loop_run f data d o acc w Hbuf Hparse Ho).
      fold step. rewrite Hrun. cbn [pages]. by rewrite logged_logged, <- app_assoc.
Qed.

Lemma mergePdfs_try_run (fs : list File.t) (docs : list (list Page)) out data (w : World) :
  import_pdf_lib = Normal tt →
  Forall2 (loads false) fs docs →
  Forall2 copied (concat docs) out →
  serialize out = Normal data →
  ∃ evs, calls_ok evs ∧
    mergePdfs_try fs w =
    (Normal tt, published w evs {| pages := out |} data (success_message Merge)).
Proof.
  intros Himp Hload Hcp Hser.
  destruct (merge_loop_run fs docs out {| pages := [] |}
              (logged w [Call CallImport None; Call CallCreate None]) Hload Hcp)
    as (evs & Hok & Hrun).
  exists ([Call CallImport None; Call CallCreate None] ++ evs). split.
  - apply calls_ok_app; [| exact Hok].
    repeat (constructor; [eexists; split; reflexivity |]). constructor.
  - unfold mergePdfs_try. rewrite !bind_run. unfold import_, await. rewrite Himp.
    rewrite !bind_run. unfold create, await. rewrite logged_logged. cbn [app].
    rewrite bind_run, Hrun. cbn [app pages]. rewrite bind_run.
    unfold save, await. cbn [pages]. rewrite Hser, publish_run.
    unfold published, logged; simpl. by rewrite <- !app_assoc.
Qed.

Lemma calls_ok_single f data ie (src : list Page) indices :
  calls_ok (single_calls f data ie src indices).
Proof.
  unfold single_calls.
  repeat (constructor; [eexists; split; reflexivity |]). constructor.
Qed.

Lemma compressPdf_try_run (fs : list File.t) i q f data src out bs (w : World) :
  fs !! i = Some f →
  import_pdf_lib = Normal tt →
  File.arrayBuffer f = Normal data →
  parse data true = Normal src →
  copy_all src (seq 0 (length src)) = Normal out →
  serialize out = Normal bs →
  compressPdf_try fs i q w =
  (Normal tt,
   published w (single_calls f data true src (seq 0 (length src)))
     {| pages := out |} bs (success_message (Compress i q))).
Proof.
  intros Hf Himp Hbuf Hparse Hcp Hser.
  unfold compressPdf_try. rewrite !bind_run. unfold import_, await. rewrite Himp.
  rewrite !bind_run, (file_at_run _ _ _ _ Hf).
  unfold arrayBuffer, await. rewrite Hbuf.
  rewrite !bind_run. unfold load, await. rewrite Hparse.
  rewrite !bind_run. unfold create, await.
  rewrite !bind_run. unfold copyPages, getPageIndices, getPageCount, await.
  cbn [pages]. rewrite Hcp. rewrite addPages_pages. cbn [pages app].
  rewrite bind_run. unfold save, await. cbn [pages]. rewrite Hser, publish_run.
  unfold published, logged, single_calls; simpl. by rewrite <- !app_assoc.
Qed.

Lemma removePagesFromPdf_try_run (fs : list File.t) i R f data src out bs (w : World) :
  fs !! i = Some f →
  import_pdf_lib = Normal tt →
  File.arrayBuffer f = Normal data →
  parse data false = Normal src →
  copy_all src (Selector.toKeep (length src) R) = Normal out →
  serialize out = Normal bs →
  removePagesFromPdf_try fs i R w =
  (Normal tt,
   published w (single_calls f data false src (Selector.toKeep (length src) R))
     {| pages := out |} bs (success_message (RemovePages i R))).
Proof.
  intros Hf Himp Hbuf Hparse Hcp Hser.
  unfold removePagesFromPdf_try. rewrite !bind_run. unfold import_, await. rewrite Himp.
  rewrite !bind_run, (file_at_run _ _ _ _ Hf).
  unfold arrayBuffer, await. rewrite Hbuf.
  rewrite !bind_run. unfold load, await. rewrite Hparse.
  rewrite !bind_run. unfold create, await.
  rewrite !bind_run. unfold copyPages, getPageCount, await.
  cbn [pages]. rewrite Hcp. rewrite addPages_pages. cbn [pages app].
  rewrite bind_run. unfold save, await. cbn [pages]. rewrite Hser, publish_run.
  unfold published, logged, single_calls; simpl. by rewrite <- !app_assoc.
Qed.

(** *** What the events of a run show *)

Lemma calls_ok_not_raised (evs : list Event) c err :
  calls_ok evs → Call c (Some err) ∉ evs.
Proof.
  intros Hok Hin. unfold calls_ok in Hok. rewrite Forall_forall in Hok.
  by destruct (Hok _ Hin) as (c' & [=] & _).
Qed.

Lemma calls_ok_saved (evs : list Event) : calls_ok evs → saved evs = [].
Proof.
  unfold saved. induction 1 as [|ev evs (c & -> & Hc) _ IH]; [done |].
  destruct c; try discriminate Hc; exact IH.
Qed.

Lemma calls_ok_phases (evs : list Event) : calls_ok evs → phases evs = [].
Proof.
  unfold phases. induction 1 as [|ev evs (c & -> & Hc) _ IH]; [done |].
  exact IH.
Qed.

Lemma calls_ok_no_state (evs : list Event) ev :
  calls_ok evs → ev ∈ evs → ∃ c, ev = Call c None.
Proof.
  intros Hok Hin. unfold calls_ok in Hok. rewrite Forall_forall in Hok.
  destruct (Hok _ Hin) as (c & -> & _). by exists c.
Qed.

Lemma flag_after_app (evs1 evs2 : list Event) b :
  flag_after (evs1 ++ evs2) b = flag_after evs2 (flag_after evs1 b).
Proof. unfold flag_after. apply fold_left_app. Qed.

Lemma flag_after_keeps (evs : list Event) b :
  (∀ b', SetProcessing b' ∉ evs) → flag_after evs b = b.
Proof.
  revert b. induction evs as [|ev evs IH]; intros b Hno; [done |].
  simpl. destruct ev as [| b' | | | |]; try (apply IH; intros b'' Hin; apply (Hno b''); by right).
  exfalso. apply (Hno b'). left.
Qed.

Lemma split_before_last {A} (l1 l2 m : list A) x :
  l1 ++ l2 = m ++ [x] → l2 ≠ [] → ∃ l2', l2 = l2' ++ [x] ∧ m = l1 ++ l2'.
Proof.
  intros Heq Hne. destruct (exists_last Hne) as (l2' & y & ->).
  rewrite app_assoc in Heq. apply app_inj_tail in Heq as [Hm Hx]. subst. by exists l2'.
Qed.

(** Between its first and its last event the operation keeps the flag up. *)
Lemma flag_during (mid pre post : list Event) b :
  (∀ b', SetProcessing b' ∉ mid) →
  pre ++ post = SetProcessing true :: mid ++ [SetProcessing false] →
  pre ≠ [] → post ≠ [] →
  flag_after pre b = true.
Proof.
  intros Hmid Heq Hpre Hpost. destruct pre as [|ev pre]; [done |].
  simpl in Heq. injection Heq as -> Heq.
  apply split_before_last in Heq as (post' & -> & ->); [| done].
  simpl. apply flag_after_keeps. intros b' Hin. apply (Hmid b'), elem_of_app. by left.
Qed.

Lemma flag_at_end (mid : list Event) b :
  flag_after (SetProcessing true :: mid ++ [SetProcessing false]) b = false.
Proof. simpl. by rewrite flag_after_app. Qed.

Ltac in_events H :=
  repeat first [rewrite elem_of_app in H | rewrite elem_of_cons in H
               | rewrite elem_of_nil in H].

(** C9: with an empty pending list [mergePdfs] only sets the advisory
    message and returns: the flag is never set, no call is made (nothing is
    loaded or assembled), and the result handle stays as it was. *)
Theorem mergePdfs_empty_list (w : World) :
  files (ui w) = [] →
  ∃ w',
    mergePdfs w = (Normal tt, w') ∧
    log w' = log w ++ [SetMessage "Carica almeno 1 PDF."] ∧
    message (ui w') = "Carica almeno 1 PDF."%string ∧
    processing (ui w') = processing (ui w) ∧
    resultUrl (ui w') = resultUrl (ui w) ∧
    files (ui w') = files (ui w) ∧
    objectURLs w' = objectURLs w ∧
    calls (drop (length (log w)) (log w')) = [] ∧
    (∀ b, SetProcessing b ∉ drop (length (log w)) (log w')).
Proof.
  intros Hfiles. unfold mergePdfs. rewrite Hfiles. simpl.
  eexists. split; [reflexivity |]. simpl.
  rewrite drop_app_length. repeat split; try done.
  intros b Hin. in_events Hin. by destruct Hin as [? | []].
Qed.

(** C7: of the files chosen in the picker, those whose [type] is
    ["application/pdf"] are appended to the pending list, in their order;
    the others are dropped; nothing else happens, and no call reads or
    parses the bytes. *)
Theorem handleFilesSelected_keeps_pdfs (target_files : option (list File.t)) (w : World) :
  ∃ w',
    handleFilesSelected target_files w = (Normal tt, w') ∧
    files (ui w') =
      files (ui w) ++
      List.filter (fun f => bool_decide (File.type f = "application/pdf"%string))
        (default [] target_files) ∧
    (∀ f, f ∈ drop (length (files (ui w))) (files (ui w')) ↔
          f ∈ default [] target_files ∧ File.type f = "application/pdf"%string) ∧
    processing (ui w') = processing (ui w) ∧
    message (ui w') = message (ui w) ∧
    resultUrl (ui w') = resultUrl (ui w) ∧
    objectURLs w' = objectURLs w ∧
    log w' = log w ++ [SetFiles (files (ui w'))].
Proof.
  unfold handleFilesSelected, setFiles. eexists. split; [reflexivity |]. simpl.
  assert (Hfilter : ∀ l : list File.t,
            List.filter (fun f => String.eqb (File.type f) "application/pdf") l =
            List.filter (fun f => bool_decide (File.type f = "application/pdf"%string)) l).
  { intros l. apply List.filter_ext. intros f.
    destruct (String.eqb_spec (File.type f) "application/pdf") as [Heq|Hne].
    - symmetry. by apply bool_decide_eq_true.
    - symmetry. by apply bool_decide_eq_false. }
  replace (match target_files with Some fl => fl | None => [] end)
    with (default [] target_files) by by destruct target_files.
  rewrite Hfilter. split; [done |]. split; [| repeat split; done].
  intros f. rewrite drop_app_length.
  by rewrite list_elem_of_In, filter_In, bool_decide_eq_true, <- list_elem_of_In.
Qed.

(** C10: [compressPdf] does not look at its quality parameter: two runs
    that differ only in it are the same run, with the same output. *)
Theorem compressPdf_ignores_quality (fileIndex : nat) (q1 q2 : Q) (w : World) :
  compressPdf fileIndex q1 w = compressPdf fileIndex q2 w ∧
  saved (log (snd (compressPdf fileIndex q1 w))) =
  saved (log (snd (compressPdf fileIndex q2 w))) ∧
  objectURLs (snd (compressPdf fileIndex q1 w)) =
  objectURLs (snd (compressPdf fileIndex q2 w)).
Proof. repeat split; reflexivity. Qed.

Lemma succeeded_not_raised op (w w' : World) evs cs doc data c err :
  succeeded op w w' evs cs doc data → Call c (Some err) ∉ evs.
Proof.
  intros (Hok & _ & -> & _) Hin. in_events Hin.
  destruct Hin as [[Hin | [Hin | []]] | [Hin | Hin]]; try discriminate Hin.
  - by apply calls_ok_not_raised in Hin.
  - destruct Hin as [Hin | [Hin | [Hin | [Hin | [Hin | []]]]]]; discriminate Hin.
Qed.

Lemma succeeded_saved op (w w' : World) evs cs doc data :
  succeeded op w w' evs cs doc data → saved evs = [doc].
Proof.
  intros (Hok & _ & -> & _). unfold saved. rewrite !omap_app.
  fold (saved cs). by rewrite calls_ok_saved.
Qed.

Lemma failed_raised op (w w' : World) evs err c err' :
  failed op w w' evs err → Call c (Some err') ∈ evs → err' = err.
Proof.
  intros (cs & c0 & Hok & -> & _) Hin. in_events Hin.
  destruct Hin as [[Hin | [Hin | []]] | [Hin | Hin]]; try discriminate Hin.
  - by apply calls_ok_not_raised in Hin.
  - destruct Hin as [Hin | [Hin | [Hin | [Hin | []]]]]; try discriminate Hin.
    by injection Hin.
Qed.

Lemma failed_nothing_published op (w w' : World) evs err u :
  failed op w w' evs err → SetResultUrl u ∉ evs.
Proof.
  intros (cs & c0 & Hok & -> & _) Hin. in_events Hin.
  destruct Hin as [[Hin | [Hin | []]] | [Hin | Hin]]; try discriminate Hin.
  - by destruct (calls_ok_no_state _ _ Hok Hin).
  - destruct Hin as [Hin | [Hin | [Hin | [Hin | []]]]]; discriminate Hin.
Qed.

(** C6: whatever the calls of an operation do, the operation returns;
    every error raised by a call is caught, logged and shown in the
    message, and then nothing is published: the result URL and the URL
    store stay as they were; when no call raises, one document is
    serialized and its bytes become the result. *)
Theorem failures_caught_no_partial_result (op : Operation) (w : World) :
  passes_guard op w = true →
  ∃ w' evs,
    run op w = (Normal tt, w') ∧
    log w' = log w ++ evs ∧
    files (ui w') = files (ui w) ∧
    (∀ c err, Call c (Some err) ∈ evs →
       ConsoleError err ∈ evs ∧
       message (ui w') = (error_prefix op ++ message_or_error err)%string ∧
       resultUrl (ui w') = resultUrl (ui w) ∧
       objectURLs w' = objectURLs w ∧
       (∀ u, SetResultUrl u ∉ evs)) ∧
    ((∀ c err, Call c (Some err) ∉ evs) →
       ∃ doc data,
         saved evs = [doc] ∧
         serialize (pages doc) = Normal data ∧
         objectURLs w' = objectURLs w ++ [artifact data] ∧
         resultUrl (ui w') = Some (length (objectURLs w)) ∧
         message (ui w') = success_message op).
Proof.
  intros Hg. destruct (operation_outcome op w Hg) as (w' & evs & Hrun & Hlog & Hend).
  exists w', evs. split; [done |]. split; [done |].
  destruct Hend as [(cs & doc & data & Hs) | (err & Hf)].
  - split; [by destruct Hs as (_ & _ & _ & _ & ->) |]. split.
    + intros c err Hin. by apply (succeeded_not_raised _ _ _ _ _ _ _ c err) in Hs.
    + intros _. exists doc, data. split; [by eapply succeeded_saved |].
      destruct Hs as (_ & Hser & _ & Hurls & ->). done.
  - split; [by destruct Hf as (_ & _ & _ & _ & _ & ->) |]. split.
    + intros c err' Hin. rewrite (failed_raised _ _ _ _ _ _ _ Hf Hin).
      split; [| split; [| split; [| split]]].
      * destruct Hf as (cs & c0 & _ & -> & _).
        rewrite !elem_of_app, !elem_of_cons. right. right. right. by left.
      * by destruct Hf as (_ & _ & _ & _ & _ & ->).
      * by destruct Hf as (_ & _ & _ & _ & _ & ->).
      * by destruct Hf as (_ & _ & _ & _ & -> & _).
      * intros u. by eapply failed_nothing_published.
    + intros Hno. exfalso. destruct Hf as (cs & c0 & _ & -> & _).
      apply (Hno c0 err). rewrite !elem_of_app, !elem_of_cons. right. right. by left.
Qed.

(** C8: an operation past its guard first raises the processing flag,
    keeps it up until its last event, which lowers it, and in between
    either publishes a result or reports an error: its phases are
    Processing, then Success or Failed, then Idle; it always returns, with
    the flag down. *)
Theorem operation_state_machine (op : Operation) (w : World) :
  passes_guard op w = true →
  ∃ w' evs mid,
    run op w = (Normal tt, w') ∧
    log w' = log w ++ evs ∧
    evs = SetProcessing true :: mid ++ [SetProcessing false] ∧
    (∀ b, SetProcessing b ∉ mid) ∧
    (∀ pre post, pre ++ post = evs → pre ≠ [] → post ≠ [] →
       flag_after pre (processing (ui w)) = true) ∧
    flag_after evs (processing (ui w)) = false ∧
    processing (ui w') = false ∧
    ((∃ u, phases evs = [Processing; Success (Some u); Idle] ∧
           resultUrl (ui w') = Some u) ∨
     (∃ err, phases evs = [Processing; Failed err; Idle] ∧
             resultUrl (ui w') = resultUrl (ui w))).
Proof.
  intros Hg. destruct (operation_outcome op w Hg) as (w' & evs & Hrun & Hlog & Hend).
  assert (Hshape : ∃ mid, evs = SetProcessing true :: mid ++ [SetProcessing false] ∧
                          ∀ b, SetProcessing b ∉ mid).
  { destruct Hend as [(cs & doc & data & Hok & _ & -> & _) | (err & cs & c & Hok & -> & _)].
    - exists (SetMessage (start_message op) :: cs ++
                [Call (CallSave doc) None;
                 Call (CallCreateObjectURL (artifact data)) None;
                 SetResultUrl (Some (length (objectURLs w)));
                 SetMessage (success_message op)]). split.
      + simpl. by rewrite <- !app_assoc.
      + intros b Hin. in_events Hin. destruct Hin as [Hin | [Hin | Hin]]; try discriminate Hin.
        * by destruct (calls_ok_no_state _ _ Hok Hin).
        * destruct Hin as [Hin | [Hin | [Hin | [Hin | []]]]]; discriminate Hin.
    - exists (SetMessage (start_message op) :: cs ++
                [Call c (Some err); ConsoleError err;
                 SetMessage (error_prefix op ++ message_or_error err)]). split.
      + simpl. by rewrite <- !app_assoc.
      + intros b Hin. in_events Hin. destruct Hin as [Hin | [Hin | Hin]]; try discriminate Hin.
        * by destruct (calls_ok_no_state _ _ Hok Hin).
        * destruct Hin as [Hin | [Hin | [Hin | []]]]; discriminate Hin. }
  destruct Hshape as (mid & Hevs & Hmid).
  exists w', evs, mid. split; [done |]. split; [done |]. split; [done |]. split; [done |].
  split; [| split; [| split]].
  - intros pre post Heq Hpre Hpost. rewrite Hevs in Heq. by eapply flag_during.
  - rewrite Hevs. apply flag_at_end.
  - by destruct Hend as [(cs & doc & data & _ & _ & _ & _ & ->) | (err & cs & c & _ & _ & _ & ->)].
  - destruct Hend as [(cs & doc & data & Hok & _ & -> & _ & ->) | (err & cs & c & Hok & -> & _ & ->)].
    + left. eexists. split; [| reflexivity].
      unfold phases. rewrite !omap_app. fold (phases cs). by rewrite calls_ok_phases.
    + right. exists err. split; [| reflexivity].
      unfold phases. rewrite !omap_app. fold (phases cs). by rewrite calls_ok_phases.
Qed.

(** *** Assembly: merge and compression *)

Lemma run_success op (w : World) cs doc data :
  passes_guard op w = true →
  calls_ok cs → serialize (pages doc) = Normal data →
  try_block op (files (ui w)) (started w (start_message op)) =
    (Normal tt, published (started w (start_message op)) cs doc data (success_message op)) →
  ∃ w' evs,
    run op w = (Normal tt, w') ∧
    log w' = log w ++ evs ∧
    succeeded op w w' evs cs doc data.
Proof.
  intros Hg Hok Hser Hbody. rewrite run_guarded by done. by apply guarded_published.
Qed.

(** A merge in which every source loads, every page copies and the
    result serializes. *)
Lemma mergePdfs_success (w : World) (docs : list (list Page)) :
  files (ui w) ≠ [] →
  import_pdf_lib = Normal tt →
  Forall2 (loads false) (files (ui w)) docs →
  Forall (fun p => ∃ q, copied p q) (concat docs) →
  (∀ out, Forall2 copied (concat docs) out → ∃ data, serialize out = Normal data) →
  ∃ w' evs cs out data,
    mergePdfs w = (Normal tt, w') ∧
    log w' = log w ++ evs ∧
    Forall2 copied (concat docs) out ∧
    succeeded Merge w w' evs cs {| pages := out |} data.
Proof.
  intros Hne Himp Hload Hcopies Hser.
  destruct (copies_exist _ Hcopies) as [out Hout].
  destruct (Hser out Hout) as [data Hdata].
  destruct (mergePdfs_try_run (files (ui w)) docs out data
              (started w (start_message Merge)) Himp Hload Hout Hdata) as (cs & Hok & Hrun).
  assert (Hg : passes_guard Merge w = true).
  { simpl. by destruct (files (ui w)). }
  destruct (run_success Merge w cs {| pages := out |} data Hg Hok Hdata Hrun)
    as (w' & evs & Hrun' & Hlog & Hs).
  by exists w', evs, cs, out, data.
Qed.

(** C3: when the sources of a merge load, their pages copy and the result
    serializes, the one document handed to the serializer has as many
    pages as the sources together, and its pages are, position by
    position, the copies of the sources' pages concatenated in list order
    (the very pages, for a copy primitive that returns its argument); its
    bytes are the published result. *)
Theorem mergePdfs_concatenates (w : World) (docs : list (list Page)) :
  files (ui w) ≠ [] →
  import_pdf_lib = Normal tt →
  Forall2 (loads false) (files (ui w)) docs →
  Forall (fun p => ∃ q, copied p q) (concat docs) →
  (∀ out, Forall2 copied (concat docs) out → ∃ data, serialize out = Normal data) →
  ∃ w' evs out data,
    mergePdfs w = (Normal tt, w') ∧
    log w' = log w ++ evs ∧
    saved evs = [{| pages := out |}] ∧
    getPageCount {| pages := out |} = sum_list (length <$> docs) ∧
    Forall2 copied (concat docs) out ∧
    ((∀ p q, copied p q → q = p) → out = concat docs) ∧
    serialize out = Normal data ∧
    objectURLs w' = objectURLs w ++ [artifact data] ∧
    resultUrl (ui w') = Some (length (objectURLs w)).
Proof.
  intros Hne Himp Hload Hcopies Hser.
  destruct (mergePdfs_success w docs Hne Himp Hload Hcopies Hser)
    as (w' & evs & cs & out & data & Hrun & Hlog & Hout & Hs).
  exists w', evs, out, data. split; [done |]. split; [done |].
  split; [by eapply succeeded_saved |].
  split; [| split; [done | split]].
  - unfold getPageCount. cbn [pages].
    rewrite <- (Forall2_length _ _ _ Hout). apply length_concat_sum.
  - intros Hid. by apply Forall2_copied_faithful.
  - by destruct Hs as (_ & Hdata & _ & Hurls & ->).
Qed.

(** C4: merging the list that holds a single source gives a document with
    the page count of the source and, in the same order, the copies of its
    pages. *)
Theorem mergePdfs_singleton (w : World) (f : File.t) (doc : list Page) :
  files (ui w) = [f] →
  import_pdf_lib = Normal tt →
  loads false f doc →
  Forall (fun p => ∃ q, copied p q) doc →
  (∀ out, Forall2 copied doc out → ∃ data, serialize out = Normal data) →
  ∃ w' evs out data,
    mergePdfs w = (Normal tt, w') ∧
    log w' = log w ++ evs ∧
    saved evs = [{| pages := out |}] ∧
    getPageCount {| pages := out |} = getPageCount {| pages := doc |} ∧
    Forall2 copied doc out ∧
    ((∀ p q, copied p q → q = p) → out = doc) ∧
    serialize out = Normal data ∧
    objectURLs w' = objectURLs w ++ [artifact data] ∧
    resultUrl (ui w') = Some (length (objectURLs w)).
Proof.
  intros Hfiles Himp Hload Hcopies Hser.
  assert (Hcat : concat [doc] = doc) by apply app_nil_r.
  destruct (mergePdfs_success w [doc]) as (w' & evs & cs & out & data & Hrun & Hlog & Hout & Hs).
  { by rewrite Hfiles. }
  { done. }
  { rewrite Hfiles. by repeat constructor. }
  { by rewrite Hcat. }
  { by rewrite Hcat. }
  rewrite Hcat in Hout.
  exists w', evs, out, data. split; [done |]. split; [done |].
  split; [by eapply succeeded_saved |].
  split; [| split; [done | split]].
  - unfold getPageCount. cbn [pages]. symmetry. by eapply Forall2_length.
  - intros Hid. by apply Forall2_copied_faithful.
  - by destruct Hs as (_ & Hdata & _ & Hurls & ->).
Qed.

(** C5: on a source that loads (and whose pages copy and serialize),
    [compressPdf] is the copy-all assembly: the document it serializes is
    what the assembler of the specification yields for all the indices of
    the source, with the source's page count and, in order, the copies of
    its pages; the calls it makes are the import, the read, the load, the
    creation, one page copy, the save and the URL creation, and nothing
    that resamples or re-encodes; it reports success. *)
Theorem compressPdf_copies_all (fileIndex : nat) (quality : Q) (w : World)
    (f : File.t) (src : list Page) :
  files (ui w) !! fileIndex = Some f →
  import_pdf_lib = Normal tt →
  loads true f src →
  Forall (fun p => ∃ q, copied p q) src →
  (∀ out, Forall2 copied src out → ∃ data, serialize out = Normal data) →
  ∃ w' evs out bytes data,
    compressPdf fileIndex quality w = (Normal tt, w') ∧
    log w' = log w ++ evs ∧
    copy_all_assembly src = Normal out ∧
    saved evs = [{| pages := out |}] ∧
    getPageCount {| pages := out |} = getPageCount {| pages := src |} ∧
    Forall2 copied src out ∧
    ((∀ p q, copied p q → q = p) → out = src) ∧
    calls evs =
      [CallImport; CallArrayBuffer f; CallLoad bytes true; CallCreate;
       CallCopyPages {| pages := src |} (seq 0 (length src));
       CallSave {| pages := out |}; CallCreateObjectURL (artifact data)] ∧
    serialize out = Normal data ∧
    objectURLs w' = objectURLs w ++ [artifact data] ∧
    resultUrl (ui w') = Some (length (objectURLs w)) ∧
    message (ui w') = success_message (Compress fileIndex quality).
Proof.
  intros Hf Himp (bytes & Hbuf & Hparse) Hcopies Hser.
  destruct (copies_exist _ Hcopies) as [out Hout].
  destruct (Hser out Hout) as [data Hdata].
  pose proof (copy_all_indices src out Hout) as Hcp.
  assert (Hg : passes_guard (Compress fileIndex quality) w = true).
  { simpl. by rewrite Hf. }
  destruct (run_success (Compress fileIndex quality) w
              (single_calls f bytes true src (seq 0 (length src)))
              {| pages := out |} data Hg (calls_ok_single _ _ _ _ _) Hdata)
    as (w' & evs & Hrun & Hlog & Hs).
  { simpl. by apply compressPdf_try_run. }
  exists w', evs, out, bytes, data. split; [done |]. split; [done |].
  split; [unfold copy_all_assembly; simpl; by rewrite Hcp |].
  split; [by eapply succeeded_saved |].
  split; [unfold getPageCount; cbn [pages]; symmetry; by eapply Forall2_length |].
  split; [done |].
  split; [intros Hid; by apply Forall2_copied_faithful |].
  destruct Hs as (_ & _ & -> & Hurls & ->). by repeat split.
Qed.

(** *** Page removal end to end *)

Lemma copy_all_in_range (src : list Page) : ∀ indices,
  Forall (fun p => ∃ q, copied p q) src →
  Forall (fun i => i < length src) indices →
  ∃ out, copy_all src indices = Normal out.
Proof.
  intros indices Hsrc. induction 1 as [|i indices Hi _ [out IH]]; [by exists [] |].
  simpl. destruct (lookup_lt_is_Some_2 src i Hi) as [p Hp]. rewrite Hp.
  rewrite Forall_forall in Hsrc.
  destruct (Hsrc p) as [q Hq]; [by eapply list_elem_of_lookup_2 |].
  rewrite Hq, IH. by exists (q :: out).
Qed.

(** The page removal hands the selector's list to [copyPages], and the
    document it serializes holds the copies of the pages kept, in order. *)
Lemma removePagesFromPdf_copies_kept (fileIndex : nat) (pagesToRemove : list Z)
    (w : World) (f : File.t) (src : list Page) :
  files (ui w) !! fileIndex = Some f →
  import_pdf_lib = Normal tt →
  loads false f src →
  Forall (fun p => ∃ q, copied p q) src →
  (∀ out, ∃ data, serialize out = Normal data) →
  ∃ w' evs out,
    removePagesFromPdf fileIndex pagesToRemove w = (Normal tt, w') ∧
    log w' = log w ++ evs ∧
    CallCopyPages {| pages := src |} (Selector.keep_spec (length src) pagesToRemove)
      ∈ calls evs ∧
    saved evs = [{| pages := out |}] ∧
    Forall2 (fun i q => ∃ p, src !! i = Some p ∧ copied p q)
      (Selector.keep_spec (length src) pagesToRemove) out.
Proof.
  intros Hf Himp (bytes & Hbuf & Hparse) Hcopies Hser.
  destruct (copy_all_in_range src (Selector.toKeep (length src) pagesToRemove) Hcopies)
    as [out Hcp].
  { apply Forall_forall. intros i Hi.
    rewrite SelectorFacts.toKeep_keep_spec in Hi.
    by apply SelectorFacts.elem_of_keep_spec in Hi as [? _]. }
  destruct (Hser out) as [data Hdata].
  assert (Hg : passes_guard (RemovePages fileIndex pagesToRemove) w = true).
  { simpl. by rewrite Hf. }
  destruct (run_success (RemovePages fileIndex pagesToRemove) w
              (single_calls f bytes false src (Selector.toKeep (length src) pagesToRemove))
              {| pages := out |} data Hg (calls_ok_single _ _ _ _ _) Hdata)
    as (w' & evs & Hrun & Hlog & Hs).
  { simpl. by apply removePagesFromPdf_try_run. }
  exists w', evs, out. split; [done |]. split; [done |].
  split; [| split; [by eapply succeeded_saved |]].
  - destruct Hs as (_ & _ & -> & _). rewrite <- SelectorFacts.toKeep_keep_spec.
    simpl. do 4 right. left.
  - rewrite <- SelectorFacts.toKeep_keep_spec. by apply copy_all_Forall2.
Qed.

End Calls.
End AppFacts.

(** ** Runs on the fake library *)

Module Runs.
Import App AppFacts Fake.

Lemma fake_loads name ps ie : loads ie (pdf_file name ps) ps.
Proof. by exists (header :: ps). Qed.

Lemma fake_copies (ps : list Byte.byte) : Forall (fun p => ∃ q, copied p q) ps.
Proof. apply Forall_forall. intros p _. by exists p. Qed.

Lemma fake_serializes (out : list Byte.byte) : ∃ data, serialize out = Normal data.
Proof. by exists (header :: out). Qed.

(** The scenario of the specification: five pages, page 2 removed, four
    pages out. *)
Example remove_page_2 :
  saved (log (snd (removePagesFromPdf 0 [2%Z] one_file))) =
  [{| pages := [Byte.x01; Byte.x03; Byte.x04; Byte.x05] |}].
Proof. reflexivity. Qed.

Example merge_two :
  saved (log (snd (mergePdfs two_files))) = [{| pages := docA ++ docB |}].
Proof. reflexivity. Qed.

Example merge_bad_second :
  message (ui (snd (mergePdfs bad_second_file))) =
    "Errore durante l'unione: No PDF header found"%string ∧
  resultUrl (ui (snd (mergePdfs bad_second_file))) = None ∧
  objectURLs (snd (mergePdfs bad_second_file)) = [].
Proof. repeat split; reflexivity. Qed.

Lemma mergePdfs_concatenates_witness :
  ∃ w' evs out data,
    mergePdfs two_files = (Normal tt, w') ∧
    log w' = log two_files ++ evs ∧
    saved evs = [{| pages := out |}] ∧
    getPageCount {| pages := out |} = sum_list (length <$> [docA; docB]) ∧
    Forall2 copied (concat [docA; docB]) out ∧
    ((∀ p q, copied p q → q = p) → out = concat [docA; docB]) ∧
    serialize out = Normal data ∧
    objectURLs w' = objectURLs two_files ++ [artifact data] ∧
    resultUrl (ui w') = Some (length (objectURLs two_files)).
Proof.
  apply (mergePdfs_concatenates two_files [docA; docB]).
  - discriminate.
  - reflexivity.
  - repeat constructor; apply fake_loads.
  - apply fake_copies.
  - intros out _. apply fake_serializes.
Defined.

Lemma mergePdfs_singleton_witness :
  ∃ w' evs out data,
    mergePdfs one_file = (Normal tt, w') ∧
    log w' = log one_file ++ evs ∧
    saved evs = [{| pages := out |}] ∧
    getPageCount {| pages := out |} = getPageCount {| pages := docA |} ∧
    Forall2 copied docA out ∧
    ((∀ p q, copied p q → q = p) → out = docA) ∧
    serialize out = Normal data ∧
    objectURLs w' = objectURLs one_file ++ [artifact data] ∧
    resultUrl (ui w') = Some (length (objectURLs one_file)).
Proof.
  apply (mergePdfs_singleton one_file (pdf_file "a.pdf" docA) docA).
  - reflexivity.
  - reflexivity.
  - apply fake_loads.
  - apply fake_copies.
  - intros out _. apply fake_serializes.
Defined.

Lemma compressPdf_copies_all_witness :
  ∃ w' evs out bytes data,
    compressPdf 1 default_quality two_files = (Normal tt, w') ∧
    log w' = log two_files ++ evs ∧
    copy_all_assembly docB = Normal out ∧
    saved evs = [{| pages := out |}] ∧
    getPageCount {| pages := out |} = getPageCount {| pages := docB |} ∧
    Forall2 copied docB out ∧
    ((∀ p q, copied p q → q = p) → out = docB) ∧
    calls evs =
      [CallImport; CallArrayBuffer (pdf_file "b.pdf" docB); CallLoad bytes true; CallCreate;
       CallCopyPages {| pages := docB |} (seq 0 (length docB));
       CallSave {| pages := out |}; CallCreateObjectURL (artifact data)] ∧
    serialize out = Normal data ∧
    objectURLs w' = objectURLs two_files ++ [artifact data] ∧
    resultUrl (ui w') = Some (length (objectURLs two_files)) ∧
    message (ui w') = success_message (Compress 1 default_quality).
Proof.
  apply (compressPdf_copies_all 1 default_quality two_files (pdf_file "b.pdf" docB) docB).
  - reflexivity.
  - reflexivity.
  - apply fake_loads.
  - apply fake_copies.
  - intros out _. apply fake_serializes.
Defined.

Lemma failures_caught_no_partial_result_witness :
  passes_guard Merge bad_second_file = true ∧
  ∃ w' evs,
    run Merge bad_second_file = (Normal tt, w') ∧
    log w' = log bad_second_file ++ evs ∧
    files (ui w') = files (ui bad_second_file) ∧
    (∀ c err, Call c (Some err) ∈ evs →
       ConsoleError err ∈ evs ∧
       message (ui w') = (error_prefix Merge ++ message_or_error err)%string ∧
       resultUrl (ui w') = resultUrl (ui bad_second_file) ∧
       objectURLs w' = objectURLs bad_second_file ∧
       (∀ u, SetResultUrl u ∉ evs)) ∧
    ((∀ c err, Call c (Some err) ∉ evs) →
       ∃ doc data,
         saved evs = [doc] ∧
         serialize (pages doc) = Normal data ∧
         objectURLs w' = objectURLs bad_second_file ++ [artifact data] ∧
         resultUrl (ui w') = Some (length (objectURLs bad_second_file)) ∧
         message (ui w') = success_message Merge).
Proof.
  split; [reflexivity |].
  apply (failures_caught_no_partial_result Merge bad_second_file). reflexivity.
Defined.

Lemma operation_state_machine_witness :
  passes_guard (RemovePages 0 [2%Z]) one_file = true ∧
  ∃ w' evs mid,
    run (RemovePages 0 [2%Z]) one_file = (Normal tt, w') ∧
    log w' = log one_file ++ evs ∧
    evs = SetProcessing true :: mid ++ [SetProcessing false] ∧
    (∀ b, SetProcessing b ∉ mid) ∧
    (∀ pre post, pre ++ post = evs → pre ≠ [] → post ≠ [] →
       flag_after pre (processing (ui one_file)) = true) ∧
    flag_after evs (processing (ui one_file)) = false ∧
    processing (ui w') = false ∧
    ((∃ u, phases evs = [Processing; Success (Some u); Idle] ∧
           resultUrl (ui w') = Some u) ∨
     (∃ err, phases evs = [Processing; Failed err; Idle] ∧
             resultUrl (ui w') = resultUrl (ui one_file))).
Proof.
  split; [reflexivity |].
  apply (operation_state_machine (RemovePages 0 [2%Z]) one_file). reflexivity.
Defined.

Lemma mergePdfs_empty_list_witness :
  files (ui no_files) = [] ∧
  ∃ w',
    mergePdfs no_files = (Normal tt, w') ∧
    log w' = log no_files ++ [SetMessage "Carica almeno 1 PDF."] ∧
    message (ui w') = "Carica almeno 1 PDF."%string ∧
    processing (ui w') = processing (ui no_files) ∧
    resultUrl (ui w') = resultUrl (ui no_files) ∧
    files (ui w') = files (ui no_files) ∧
    objectURLs w' = objectURLs no_files ∧
    calls (drop (length (log no_files)) (log w')) = [] ∧
    (∀ b, SetProcessing b ∉ drop (length (log no_files)) (log w')).
Proof.
  split; [reflexivity |].
  apply (mergePdfs_empty_list no_files). reflexivity.
Defined.

End Runs.

(** * More of the component *)

(** ** The selector and the request *)

Module SelectorMore.
Import Selector SelectorFacts.

(** X1: the selector looks at the request only as a set: two requests
    with the same members, in whatever order and with whatever repeats,
    keep the same pages. *)
Theorem toKeep_same_members (N : nat) (R R' : list Z) :
  (∀ r, r ∈ R ↔ r ∈ R') → toKeep N R = toKeep N R'.
Proof.
  intros Hmem. rewrite !toKeep_keep_spec. unfold keep_spec.
  apply List.filter_ext. intros i. f_equal. apply bool_decide_ext, Hmem.
Qed.

Lemma toKeep_same_members_witness : toKeep 4 [2%Z; 3%Z] = toKeep 4 [3%Z; 2%Z; 2%Z].
Proof.
  apply (toKeep_same_members 4 [2%Z; 3%Z] [3%Z; 2%Z; 2%Z]).
  intros r. rewrite !elem_of_cons, !elem_of_nil. tauto.
Defined.

Lemma keep_spec_all_named (N : nat) (R : list Z) :
  (∀ k, (1 ≤ k ≤ Z.of_nat N)%Z → k ∈ R) → keep_spec N R = [].
Proof.
  intros Hall. unfold keep_spec.
  rewrite <- (List.filter_ext_in (fun _ => false)).
  - induction (seq 0 N) as [|x l IH]; [done | exact IH].
  - intros i Hi. apply in_seq in Hi. symmetry.
    apply negb_false_iff, bool_decide_eq_true, Hall. lia.
Qed.

(** X2: a request that names every page of the document keeps no page. *)
Theorem toKeep_everything_removed (N : nat) (R : list Z) :
  (∀ k, (1 ≤ k ≤ Z.of_nat N)%Z → k ∈ R) → toKeep N R = [].
Proof. intros Hall. rewrite toKeep_keep_spec. by apply keep_spec_all_named. Qed.

Lemma toKeep_everything_removed_witness : toKeep 2 [2%Z; 1%Z; 7%Z] = [].
Proof.
  apply (toKeep_everything_removed 2 [2%Z; 1%Z; 7%Z]).
  intros k Hk. assert (k = 1 ∨ k = 2)%Z as [-> | ->] by lia.
  - right. left.
  - left.
Defined.

End SelectorMore.

(** ** Handlers, guards and errors *)

Module HandlerFacts.
Import App AppFacts.

Section Handlers.
Context {Page : Type} `{!PdfLib Page}.
Local Abbreviation World := (@World Page).
Local Abbreviation M := (@M Page).
Local Abbreviation Event := (@Event Page).
Local Abbreviation ExternalCall := (@ExternalCall Page).
Local Abbreviation PDFDocument := (PDFDocument Page).

Ltac split_events H :=
  repeat first [rewrite elem_of_app in H | rewrite elem_of_cons in H
               | rewrite elem_of_nil in H].

Ltac cases_events H :=
  split_events H;
  repeat match type of H with
         | _ ∨ _ => destruct H as [H | H]
         | False => destruct H
         end.

Lemma filter_index_past (s : list File.t) : ∀ i index,
  index < i → filter_index s i index = s.
Proof.
  induction s as [|f s IH]; intros i index Hlt; [done |].
  cbn [filter_index]. destruct (Nat.eqb_spec i index) as [Heq|_]; [lia |].
  cbn [negb]. f_equal. apply IH. lia.
Qed.

Lemma filter_index_delete (s : list File.t) : ∀ i index,
  i ≤ index → filter_index s i index = delete (index - i) s.
Proof.
  induction s as [|f s IH]; intros i index Hle; [done |].
  cbn [filter_index]. destruct (Nat.eqb_spec i index) as [->|Hne]; cbn [negb].
  - rewrite Nat.sub_diag. cbn. apply filter_index_past. lia.
  - replace (index - i) with (S (index - S i)) by lia. cbn.
    f_equal. apply IH. lia.
Qed.

(** X3: [removeFile] takes out the file at the index and nothing else:
    the files before it keep their place, the files after it move up by
    one; an index past the end leaves the list as it is; the other state
    is untouched and no call is made. *)
Theorem removeFile_deletes_index (index : nat) (w : World) :
  ∃ w',
    removeFile index w = (Normal tt, w') ∧
    files (ui w') = delete index (files (ui w)) ∧
    (∀ j, j < index → files (ui w') !! j = files (ui w) !! j) ∧
    (∀ j, index ≤ j → files (ui w') !! j = files (ui w) !! S j) ∧
    (index < length (files (ui w)) →
       S (length (files (ui w'))) = length (files (ui w))) ∧
    (length (files (ui w)) ≤ index → files (ui w') = files (ui w)) ∧
    processing (ui w') = processing (ui w) ∧
    message (ui w') = message (ui w) ∧
    resultUrl (ui w') = resultUrl (ui w) ∧
    objectURLs w' = objectURLs w ∧
    log w' = log w ++ [SetFiles (files (ui w'))].
Proof.
  unfold removeFile, setFiles. eexists. split; [reflexivity |]. cbn.
  rewrite (filter_index_delete _ 0 index) by lia. rewrite Nat.sub_0_r.
  split; [done |]. split; [| split; [| split; [| split]]].
  - intros j Hj. by apply list_lookup_delete_lt.
  - intros j Hj. by apply list_lookup_delete_ge.
  - intros Hlt. rewrite length_delete by by apply lookup_lt_is_Some_2. lia.
  - intros Hge. rewrite delete_take_drop, take_ge, drop_ge by lia. apply app_nil_r.
  - repeat split; done.
Qed.

(** X4: the text put after the prefix of an error message is the
    message of the error when it has one, and the name of the error
    otherwise. *)
Theorem message_or_error_text (err : JsError) :
  message_or_error err =
  if String.eqb (err_message err) "" then err_name err else err_message err.
Proof.
  unfold message_or_error, error_toString.
  destruct (String.eqb_spec (err_message err) "") as [Hm|_]; [| done].
  destruct (String.eqb_spec (err_name err) "") as [Hn|_]; [| done].
  by rewrite Hm, Hn.
Qed.

(** X5: an operation stopped by its guard makes no call and leaves the
    files, the flag, the result URL and the URL store alone; page removal
    and compression then change nothing at all, not even the message,
    while merge sets its advisory message. *)
Theorem refused_operation_does_nothing (op : Operation) (w : World) :
  passes_guard op w = false →
  ∃ w',
    run op w = (Normal tt, w') ∧
    files (ui w') = files (ui w) ∧
    processing (ui w') = processing (ui w) ∧
    resultUrl (ui w') = resultUrl (ui w) ∧
    objectURLs w' = objectURLs w ∧
    calls (events_of (run op) w) = [] ∧
    match op with
    | Merge => message (ui w') = "Carica almeno 1 PDF."%string
    | _ => w' = w
    end.
Proof.
  unfold events_of. destruct op as [|i R|i q]; cbn [passes_guard run]; intros Hg.
  - apply negb_false_iff in Hg. unfold mergePdfs. rewrite Hg. simpl.
    eexists. split; [reflexivity |]. simpl. rewrite drop_app_length. by repeat split.
  - unfold removePagesFromPdf. destruct (files (ui w) !! i); [done |].
    exists w. cbn. rewrite drop_all. by repeat split.
  - unfold compressPdf. destruct (files (ui w) !! i); [done |].
    exists w. cbn. rewrite drop_all. by repeat split.
Qed.

(** The guards are about the pending list only: merge is refused exactly
    on the empty list, page removal and compression exactly on an index
    past the end. *)
Lemma guard_is_a_bound (op : Operation) (w : World) :
  passes_guard op w = true ↔
  match op with
  | Merge => 0 < length (files (ui w))
  | RemovePages fileIndex _ | Compress fileIndex _ => fileIndex < length (files (ui w))
  end.
Proof.
  destruct op as [|i R|i q]; cbn [passes_guard].
  - rewrite negb_true_iff, Nat.ltb_ge. lia.
  - destruct (files (ui w) !! i) eqn:Hf.
    + apply lookup_lt_Some in Hf. tauto.
    + apply lookup_ge_None in Hf. split; [done | lia].
  - destruct (files (ui w) !! i) eqn:Hf.
    + apply lookup_lt_Some in Hf. tauto.
    + apply lookup_ge_None in Hf. split; [done | lia].
Qed.


(** *** Failures, stage by stage *)

Lemma try_block_import_fails op fs (w : World) e :
  import_pdf_lib = Throw e →
  try_block op fs w = (Throw e, logged w [Call CallImport (Some e)]).
Proof.
  intros Himp.
  destruct op as [|i R|i q]; cbn [try_block];
    unfold mergePdfs_try, removePagesFromPdf_try, compressPdf_try;
    rewrite bind_run; unfold import_, await; by rewrite Himp.
Qed.

(** What is left of an operation once its [try] block has thrown. *)
Lemma guarded_thrown op (body : M unit) (w : World) evs e :
  body (started w (start_message op)) =
    (Throw e, logged (started w (start_message op)) evs) →
  ∃ w',
    guarded (start_message op) body (error_prefix op) w = (Normal tt, w') ∧
    log w' = log w ++ [SetProcessing true; SetMessage (start_message op)] ++ evs ++
             [ConsoleError e;
              SetMessage (error_prefix op ++ message_or_error e);
              SetProcessing false] ∧
    objectURLs w' = objectURLs w ∧
    ui w' = {| files := files (ui w); processing := false;
               message := (error_prefix op ++ message_or_error e)%string;
               resultUrl := resultUrl (ui w) |}.
Proof.
  intros Hbody. rewrite guarded_run, Hbody.
  eexists. split; [reflexivity |]. simpl. split; [| done].
  by rewrite <- !app_assoc.
Qed.

(** X6: when the dynamic import of the library fails, an operation past
    its guard reads no file: the import is its only call; the error is
    logged and shown, nothing is published, and the flag is lowered. *)
Theorem import_failure_reads_nothing (op : Operation) (w : World) (e : JsError) :
  passes_guard op w = true →
  import_pdf_lib = Throw e →
  ∃ w',
    run op w = (Normal tt, w') ∧
    log w' = log w ++
      [SetProcessing true; SetMessage (start_message op);
       Call CallImport (Some e); ConsoleError e;
       SetMessage (error_prefix op ++ message_or_error e);
       SetProcessing false] ∧
    message (ui w') = (error_prefix op ++ message_or_error e)%string ∧
    processing (ui w') = false ∧
    resultUrl (ui w') = resultUrl (ui w) ∧
    files (ui w') = files (ui w) ∧
    objectURLs w' = objectURLs w.
Proof.
  intros Hg Himp. rewrite run_guarded by done.
  destruct (guarded_thrown op (try_block op (files (ui w))) w
              [Call CallImport (Some e)] e) as (w' & Hrun & Hlog & Hurls & Hui).
  { by apply try_block_import_fails. }
  exists w'. rewrite Hui. by repeat split.
Qed.

Lemma for_of_app {A S} (xs ys : list A) (body : A → S → M S) s (w : World) :
  for_of (xs ++ ys) body s w =
  match for_of xs body s w with
  | (Normal s', w') => for_of ys body s' w'
  | (Throw e, w') => (Throw e, w')
  end.
Proof.
  revert s w. induction xs as [|x xs IH]; intros s w; [done |].
  cbn [app for_of]. rewrite !bind_run.
  destruct (body x s w) as [[s'|e] w']; [apply IH | done].
Qed.

(** One pass of the loop of [mergePdfs] reads its own file only. *)
Lemma mergePdfs_loop_reads f acc (w : World) :
  ∃ evs, snd (mergePdfs_loop f acc w) = logged w evs ∧
         (∀ g r, Call (CallArrayBuffer g) r ∈ evs → g = f) ∧
         saved evs = [].
Proof.
  unfold mergePdfs_loop. rewrite bind_run. unfold arrayBuffer at 1, await.
  destruct (File.arrayBuffer f) as [data|e].
  - rewrite bind_run. unfold load at 1, await.
    destruct (parse data false) as [d|e].
    + rewrite bind_run. unfold copyPages at 1, await.
      destruct (copy_all _ _) as [o|e].
      * eexists. unfold mret, M_ret, ret. cbn [snd]. rewrite !logged_logged.
        split; [reflexivity |]. split; [| done].
        intros g r Hin. cases_events Hin; by inversion Hin.
      * eexists. cbn [snd]. rewrite !logged_logged.
        split; [reflexivity |]. split; [| done].
        intros g r Hin. cases_events Hin; by inversion Hin.
    + eexists. cbn [snd]. rewrite !logged_logged.
      split; [reflexivity |]. split; [| done].
      intros g r Hin. cases_events Hin; by inversion Hin.
  - eexists. cbn [snd]. split; [reflexivity |]. split; [| done].
    intros g r Hin. cases_events Hin; by inversion Hin.
Qed.

Lemma saved_app (evs1 evs2 : list Event) : saved (evs1 ++ evs2) = saved evs1 ++ saved evs2.
Proof. apply omap_app. Qed.

(** The loop of [mergePdfs] reads the files it is given and no other. *)
Lemma merge_loop_reads (fs : list File.t) : ∀ acc (w : World),
  ∃ evs, snd (for_of fs mergePdfs_loop acc w) = logged w evs ∧
         (∀ g r, Call (CallArrayBuffer g) r ∈ evs → g ∈ fs) ∧
         saved evs = [].
Proof.
  induction fs as [|f fs IH]; intros acc w.
  - exists []. cbn. split; [| split; [| done]].
    + unfold logged. destruct w; cbn. by rewrite app_nil_r.
    + intros g r Hin. by apply elem_of_nil in Hin.
  - cbn [for_of]. rewrite bind_run.
    destruct (mergePdfs_loop_reads f acc w) as (evs1 & Hw1 & Hreads1 & Hsaved1).
    destruct (mergePdfs_loop f acc w) as [[acc'|e] w1]; cbn [snd] in Hw1; subst w1.
    + destruct (IH acc' (logged w evs1)) as (evs2 & Hw2 & Hreads2 & Hsaved2).
      exists (evs1 ++ evs2). rewrite Hw2, logged_logged. split; [done |]. split.
      * intros g r Hin. apply elem_of_app in Hin as [Hin | Hin].
        -- rewrite (Hreads1 g r Hin). left.
        -- right. by eapply Hreads2.
      * by rewrite saved_app, Hsaved1, Hsaved2.
    + exists evs1. cbn [snd]. split; [done |]. split; [| done].
      intros g r Hin. rewrite (Hreads1 g r Hin). left.
Qed.

Lemma logged_inj (w : World) evs1 evs2 : logged w evs1 = logged w evs2 → evs1 = evs2.
Proof. unfold logged. intros [= Heq]. by apply app_inv_head in Heq. Qed.

(** X7: [mergePdfs] stops at the first source that cannot be read or
    parsed: when the sources before it load and copy, the error of that
    source is the one logged and shown, no later file is read, nothing
    is serialized or published, and the flag is lowered. *)
Theorem mergePdfs_stops_at_first_failure (w : World) (pre post : list File.t)
    (f : File.t) (docs : list (list Page)) (e : JsError) :
  files (ui w) = pre ++ f :: post →
  import_pdf_lib = Normal tt →
  Forall2 (loads false) pre docs →
  Forall (fun p => ∃ q, copied p q) (concat docs) →
  (File.arrayBuffer f = Throw e ∨
   ∃ data, File.arrayBuffer f = Normal data ∧ parse data false = Throw e) →
  ∃ w' evs,
    mergePdfs w = (Normal tt, w') ∧
    log w' = log w ++ evs ∧
    ConsoleError e ∈ evs ∧
    message (ui w') = ("Errore durante l'unione: " ++ message_or_error e)%string ∧
    (∀ g r, Call (CallArrayBuffer g) r ∈ evs → g ∈ pre ++ [f]) ∧
    saved evs = [] ∧
    (∀ u, SetResultUrl u ∉ evs) ∧
    resultUrl (ui w') = resultUrl (ui w) ∧
    objectURLs w' = objectURLs w ∧
    processing (ui w') = false.
Proof.
  intros Hfiles Himp Hload Hcopies Hfail.
  destruct (copies_exist _ Hcopies) as [out Hout].
  assert (Hg : passes_guard Merge w = true).
  { cbn. rewrite Hfiles. by destruct pre. }
  set (w0 := started w (start_message Merge)).
  set (w1 := logged w0 [Call CallImport None; Call CallCreate None]).
  destruct (merge_loop_run pre docs out {| pages := [] |} w1 Hload Hout)
    as (evs_pre & Hok & Hpre).
  destruct (merge_loop_reads pre {| pages := [] |} w1) as (evs_pre' & Hpre' & Hreads & _).
  rewrite Hpre in Hpre'. cbn [snd] in Hpre'. apply logged_inj in Hpre'. subst evs_pre'.
  assert (Hf : ∃ evs_f,
             mergePdfs_loop f {| pages := out |} (logged w1 evs_pre) =
               (Throw e, logged (logged w1 evs_pre) evs_f) ∧
             (∀ g r, Call (CallArrayBuffer g) r ∈ evs_f → g = f) ∧
             saved evs_f = [] ∧ (∀ u, SetResultUrl u ∉ evs_f)).
  { unfold mergePdfs_loop. rewrite bind_run. unfold arrayBuffer at 1, await.
    destruct Hfail as [Hbuf | (data & Hbuf & Hparse)]; rewrite Hbuf.
    - eexists. split; [reflexivity |]. split; [| split; [done |]].
      + intros g r Hin. cases_events Hin; by inversion Hin.
      + intros u Hin. cases_events Hin; discriminate Hin.
    - rewrite bind_run. unfold load at 1, await. rewrite Hparse, logged_logged.
      eexists. split; [reflexivity |]. split; [| split; [done |]].
      + intros g r Hin. cases_events Hin; by inversion Hin.
      + intros u Hin. cases_events Hin; discriminate Hin. }
  destruct Hf as (evs_f & Hrunf & Hreadsf & Hsavedf & Hnof).
  assert (Htry : mergePdfs_try (files (ui w)) w0 =
                 (Throw e, logged w0 ([Call CallImport None; Call CallCreate None] ++
                                      evs_pre ++ evs_f))).
  { unfold mergePdfs_try. rewrite bind_run. unfold import_, await. rewrite Himp.
    rewrite bind_run. unfold create, await. rewrite logged_logged. cbn [app]. fold w1.
    rewrite bind_run, Hfiles, for_of_app, Hpre. cbn [for_of pages app].
    rewrite bind_run, Hrunf.
    unfold w1. by rewrite !logged_logged. }
  destruct (guarded_thrown Merge (mergePdfs_try (files (ui w))) w _ e Htry)
    as (w' & Hrun & Hlog & Hurls & Hui).
  eexists w', _. split; [etransitivity; [exact (run_guarded Merge w Hg) | exact Hrun] |].
  split; [exact Hlog |]. rewrite Hui. cbn [message resultUrl processing].
  split; [| split; [done | split; [| split; [| split; [| by repeat split]]]]].
  - rewrite !elem_of_app, !elem_of_cons. right. right. by left.
  - intros g r Hin. cases_events Hin; try discriminate Hin.
    + apply elem_of_app. left. by eapply Hreads.
    + apply elem_of_app. right. rewrite (Hreadsf g r Hin). left.
  - rewrite !saved_app, (calls_ok_saved _ Hok), Hsavedf. done.
  - intros u Hin. cases_events Hin; try discriminate Hin.
    + by destruct (calls_ok_no_state _ _ Hok Hin).
    + by apply Hnof in Hin.
Qed.


(** *** Page removal, end to end *)

(** X8: a page removal on a source that loads, copies and serializes
    hands the serializer a document of [N - |R ∩ {1..N}|] pages, the
    copies of the pages kept, in their order, publishes its bytes and
    reports success. *)
Theorem removePagesFromPdf_output (fileIndex : nat) (pagesToRemove : list Z)
    (w : World) (f : File.t) (src : list Page) :
  files (ui w) !! fileIndex = Some f →
  import_pdf_lib = Normal tt →
  loads false f src →
  Forall (fun p => ∃ q, copied p q) src →
  (∀ out, ∃ data, serialize out = Normal data) →
  ∃ w' evs out data,
    removePagesFromPdf fileIndex pagesToRemove w = (Normal tt, w') ∧
    log w' = log w ++ evs ∧
    saved evs = [{| pages := out |}] ∧
    length out =
      length src -
      size (list_to_set pagesToRemove ∩ Selector.pageNumbers (length src) : gset Z) ∧
    Forall2 (fun i q => ∃ p, src !! i = Some p ∧ copied p q)
      (Selector.keep_spec (length src) pagesToRemove) out ∧
    serialize out = Normal data ∧
    objectURLs w' = objectURLs w ++ [artifact data] ∧
    resultUrl (ui w') = Some (length (objectURLs w)) ∧
    message (ui w') = "Pagine rimosse. Scarica il risultato qui sotto."%string ∧
    processing (ui w') = false.
Proof.
  intros Hf Himp (bytes & Hbuf & Hparse) Hcopies Hser.
  destruct (copy_all_in_range src (Selector.toKeep (length src) pagesToRemove) Hcopies)
    as [out Hcp].
  { apply Forall_forall. intros i Hi.
    rewrite SelectorFacts.toKeep_keep_spec in Hi.
    by apply SelectorFacts.elem_of_keep_spec in Hi as [? _]. }
  destruct (Hser out) as [data Hdata].
  assert (Hg : passes_guard (RemovePages fileIndex pagesToRemove) w = true).
  { simpl. by rewrite Hf. }
  destruct (run_success (RemovePages fileIndex pagesToRemove) w
              (single_calls f bytes false src (Selector.toKeep (length src) pagesToRemove))
              {| pages := out |} data Hg (calls_ok_single _ _ _ _ _) Hdata)
    as (w' & evs & Hrun & Hlog & Hs).
  { simpl. by apply removePagesFromPdf_try_run. }
  pose proof (copy_all_Forall2 _ _ _ Hcp) as Hkept.
  rewrite SelectorFacts.toKeep_keep_spec in Hkept.
  exists w', evs, out, data. split; [done |]. split; [done |].
  split; [by eapply succeeded_saved |].
  split; [| split; [done |]].
  - rewrite <- (Forall2_length _ _ _ Hkept), SelectorFacts.size_removed.
    pose proof (SelectorFacts.length_keep_removed (length src) pagesToRemove). lia.
  - destruct Hs as (_ & _ & _ & Hurls & ->). by repeat split.
Qed.

(** X9: a removal request that names every page of the source copies no
    page at all, whatever the copy primitive would do: an empty document
    goes to the serializer, and the operation reports success. *)
Theorem removePagesFromPdf_everything (fileIndex : nat) (pagesToRemove : list Z)
    (w : World) (f : File.t) (src : list Page) (data : bytes) :
  files (ui w) !! fileIndex = Some f →
  import_pdf_lib = Normal tt →
  loads false f src →
  (∀ k, (1 ≤ k ≤ Z.of_nat (length src))%Z → k ∈ pagesToRemove) →
  serialize [] = Normal data →
  ∃ w' evs,
    removePagesFromPdf fileIndex pagesToRemove w = (Normal tt, w') ∧
    log w' = log w ++ evs ∧
    CallCopyPages {| pages := src |} [] ∈ calls evs ∧
    saved evs = [{| pages := [] |}] ∧
    objectURLs w' = objectURLs w ++ [artifact data] ∧
    resultUrl (ui w') = Some (length (objectURLs w)) ∧
    message (ui w') = "Pagine rimosse. Scarica il risultato qui sotto."%string.
Proof.
  intros Hf Himp (bytes & Hbuf & Hparse) Hall Hdata.
  assert (Hkeep : Selector.toKeep (length src) pagesToRemove = []).
  { rewrite SelectorFacts.toKeep_keep_spec. by apply SelectorMore.keep_spec_all_named. }
  assert (Hg : passes_guard (RemovePages fileIndex pagesToRemove) w = true).
  { simpl. by rewrite Hf. }
  destruct (run_success (RemovePages fileIndex pagesToRemove) w
              (single_calls f bytes false src [])
              {| pages := [] |} data Hg (calls_ok_single _ _ _ _ _) Hdata)
    as (w' & evs & Hrun & Hlog & Hs).
  { simpl. rewrite <- Hkeep at 1. apply removePagesFromPdf_try_run; try done.
    by rewrite Hkeep. }
  exists w', evs. split; [done |]. split; [done |].
  split; [| split; [by eapply succeeded_saved |]].
  - destruct Hs as (_ & _ & -> & _). simpl. do 4 right. left.
  - destruct Hs as (_ & _ & _ & Hurls & ->). by repeat split.
Qed.

(** *** Merging in pieces *)

Lemma copied_functional (src out out' : list Page) :
  Forall2 copied src out → Forall2 copied src out' → out = out'.
Proof.
  intros H. revert out'. induction H as [|p q src out Hpq _ IH]; intros out' H'.
  - by apply Forall2_nil_inv_l in H'.
  - apply Forall2_cons_inv_l in H' as (q' & out'' & Hpq' & H' & ->).
    unfold copied in *. rewrite Hpq in Hpq'. injection Hpq' as ->. f_equal. by apply IH.
Qed.

Lemma events_of_run (m : M unit) (w w' : World) evs r :
  m w = (r, w') → log w' = log w ++ evs → events_of m w = evs.
Proof.
  intros Hrun Hlog. unfold events_of. rewrite Hrun. cbn [snd].
  by rewrite Hlog, drop_app_length.
Qed.

(** X10: merging a list of sources gives the pages of merging its first
    part followed by the pages of merging the rest: the document saved
    for [fs1 ++ fs2] is the concatenation of the documents saved for
    [fs1] and for [fs2]. *)
Theorem mergePdfs_of_concatenation (w w1 w2 : World) (fs1 fs2 : list File.t)
    (docs1 docs2 : list (list Page)) :
  fs1 ≠ [] → fs2 ≠ [] →
  files (ui w1) = fs1 → files (ui w2) = fs2 → files (ui w) = fs1 ++ fs2 →
  import_pdf_lib = Normal tt →
  Forall2 (loads false) fs1 docs1 →
  Forall2 (loads false) fs2 docs2 →
  Forall (fun p => ∃ q, copied p q) (concat docs1 ++ concat docs2) →
  (∀ out, ∃ data, serialize out = Normal data) →
  ∃ out1 out2,
    saved (events_of mergePdfs w1) = [{| pages := out1 |}] ∧
    saved (events_of mergePdfs w2) = [{| pages := out2 |}] ∧
    saved (events_of mergePdfs w) = [{| pages := out1 ++ out2 |}].
Proof.
  intros Hne1 Hne2 Hw1 Hw2 Hw Himp Hl1 Hl2 Hcopies Hser.
  apply Forall_app in Hcopies as [Hc1 Hc2].
  destruct (mergePdfs_success w1 docs1) as (w1' & evs1 & cs1 & out1 & d1 & Hr1 & Hlog1 & Ho1 & Hs1);
    [by rewrite Hw1 | done | by rewrite Hw1 | done | intros; apply Hser |].
  destruct (mergePdfs_success w2 docs2) as (w2' & evs2 & cs2 & out2 & d2 & Hr2 & Hlog2 & Ho2 & Hs2);
    [by rewrite Hw2 | done | by rewrite Hw2 | done | intros; apply Hser |].
  destruct (mergePdfs_success w (docs1 ++ docs2))
    as (w' & evs & cs & out & d & Hr & Hlog & Ho & Hs).
  { rewrite Hw. by destruct fs1. }
  { done. }
  { rewrite Hw. by apply Forall2_app. }
  { rewrite concat_app. by apply Forall_app. }
  { intros; apply Hser. }
  rewrite concat_app in Ho.
  assert (Ho12 : Forall2 copied (concat docs1 ++ concat docs2) (out1 ++ out2))
    by by apply Forall2_app.
  rewrite (copied_functional _ _ _ Ho Ho12) in Hs.
  exists out1, out2.
  rewrite (events_of_run _ _ _ _ _ Hr1 Hlog1), (events_of_run _ _ _ _ _ Hr2 Hlog2),
    (events_of_run _ _ _ _ _ Hr Hlog).
  split; [by eapply succeeded_saved |]. split; by eapply succeeded_saved.
Qed.


(** *** What every handler keeps *)

Lemma run_refused op (w : World) :
  passes_guard op w = false →
  ∃ w', run op w = (Normal tt, w') ∧
        files (ui w') = files (ui w) ∧
        processing (ui w') = processing (ui w) ∧
        resultUrl (ui w') = resultUrl (ui w) ∧
        objectURLs w' = objectURLs w.
Proof.
  destruct op as [|i R|i q]; cbn [passes_guard run]; intros Hg.
  - apply negb_false_iff in Hg. unfold mergePdfs. rewrite Hg. simpl.
    eexists. split; [reflexivity |]. by repeat split.
  - unfold removePagesFromPdf. destruct (files (ui w) !! i); [done |]. by exists w.
  - unfold compressPdf. destruct (files (ui w) !! i); [done |]. by exists w.
Qed.

Lemma filter_index_sublist (s : list File.t) : ∀ i index f,
  f ∈ filter_index s i index → f ∈ s.
Proof.
  induction s as [|g s IH]; intros i index f; [done |].
  cbn [filter_index]. destruct (negb (i =? index)).
  - rewrite !elem_of_cons. intros [-> | Hin]; [by left | right; by eapply IH].
  - intros Hin. right. by eapply IH.
Qed.

(** One handler: it returns, and keeps what the component relies on. *)
Lemma handle_step (h : Handler) (w : World) :
  ∃ w', handle h w = (Normal tt, w') ∧
        (only_pdfs (files (ui w)) → only_pdfs (files (ui w'))) ∧
        (processing (ui w) = false → processing (ui w') = false) ∧
        objectURLs w `prefix_of` objectURLs w' ∧
        (result_resolves w → result_resolves w').
Proof.
  destruct h as [|target_files|index|op]; cbn [handle].
  - eexists. split; [reflexivity |]. simpl. split; [intros _; constructor |].
    split; [done |]. split; [done |]. intros _ u Hu. discriminate Hu.
  - eexists. split; [reflexivity |]. simpl. split; [| by repeat split].
    intros Hpdf. apply Forall_app. split; [done |].
    apply Forall_forall. intros f Hin.
    apply list_elem_of_In, filter_In in Hin as [_ Hty]. by apply String.eqb_eq in Hty.
  - eexists. split; [reflexivity |]. simpl. split; [| by repeat split].
    unfold only_pdfs. rewrite !Forall_forall. intros Hpdf f Hin.
    apply Hpdf. by eapply filter_index_sublist.
  - destruct (passes_guard op w) eqn:Hg.
    + destruct (operation_outcome op w Hg) as (w' & evs & Hrun & _ & Hend).
      exists w'. split; [done |].
      destruct Hend as [(cs & doc & data & _ & _ & _ & Hurls & Hui) | (err & cs & c & _ & _ & Hurls & Hui)].
      * rewrite Hui, Hurls. cbn [files processing]. split; [done |]. split; [done |].
        split; [by apply prefix_app_r |].
        intros _ u Hu. unfold result_resolves in *. rewrite Hui in Hu. cbn in Hu.
        injection Hu as <-. exists (artifact data). split; [| done].
        rewrite Hurls. by apply list_lookup_middle.
      * rewrite Hui, Hurls. cbn [files processing]. split; [done |]. split; [done |].
        split; [done |].
        intros Hres u Hu. unfold result_resolves in *. rewrite Hui in Hu. cbn in Hu.
        rewrite Hurls. by apply Hres.
    + destruct (run_refused op w Hg) as (w' & Hrun & Hfiles & Hproc & Hurl & Hurls).
      exists w'. split; [done |]. rewrite Hfiles, Hproc, Hurls.
      split; [done |]. split; [done |]. split; [done |].
      intros Hres u Hu. unfold result_resolves in *. rewrite Hurl in Hu.
      rewrite Hurls. by apply Hres.
Qed.

Lemma handle_all_keeps (P : World → Prop) :
  (∀ h w, P w → P (snd (handle h w))) →
  ∀ hs w, P w → P (handle_all hs w).
Proof.
  intros Hstep. induction hs as [|h hs IH]; intros w Hw; [done |].
  cbn [handle_all]. by apply IH, Hstep.
Qed.

(** X11: whatever handlers run, in whatever order, from the first
    render on, the pending list holds only files whose type is
    ["application/pdf"]. *)
Theorem pending_list_only_pdfs (hs : list Handler) :
  only_pdfs (files (ui (handle_all hs initial))).
Proof.
  apply (handle_all_keeps (fun w => only_pdfs (files (ui w)))).
  - intros h w Hw. destruct (handle_step h w) as (w' & Hrun & Hpdf & _).
    rewrite Hrun. by apply Hpdf.
  - constructor.
Qed.

(** X12: no handler removes a blob from the URL store, and the result
    URL, whenever it is set, names a stored blob of the PDF type: the
    download link never dangles. *)
Theorem result_url_resolves (hs : list Handler) :
  (∀ w, objectURLs w `prefix_of` objectURLs (handle_all hs w)) ∧
  result_resolves (handle_all hs initial).
Proof.
  split.
  - induction hs as [|h hs IH]; intros w; [done |].
    cbn [handle_all]. etransitivity; [| apply IH].
    destruct (handle_step h w) as (w' & Hrun & _ & _ & Hpre & _). by rewrite Hrun.
  - apply (handle_all_keeps result_resolves).
    + intros h w Hw. destruct (handle_step h w) as (w' & Hrun & _ & _ & _ & Hres).
      rewrite Hrun. by apply Hres.
    + intros u Hu. discriminate Hu.
Qed.

(** X13: no handler lets an exception out, and when handlers run one
    after another from the first render on, the processing flag is down
    whenever one of them has finished. *)
Theorem handlers_return_with_flag_down (hs : list Handler) :
  (∀ h w, fst (handle h w) = Normal tt) ∧
  processing (ui (handle_all hs initial)) = false.
Proof.
  split.
  - intros h w. destruct (handle_step h w) as (w' & Hrun & _). by rewrite Hrun.
  - apply (handle_all_keeps (fun w => processing (ui w) = false)); [| done].
    intros h w Hw. destruct (handle_step h w) as (w' & Hrun & _ & Hproc & _).
    rewrite Hrun. by apply Hproc.
Qed.

(** *** The render and the handlers *)

(** X14: the buttons of a rendered row always point at a file of the
    list: the page removal and the compression they start pass their
    guards, and there is one row per file; the merge button, when it is
    not disabled, starts a merge that passes its guard, with the flag
    down. *)
Theorem rendered_buttons_pass_guards (w : World) :
  length (view_rows (render (ui w))) = length (files (ui w)) ∧
  (∀ row, row ∈ view_rows (render (ui w)) →
     ∃ i f, files (ui w) !! i = Some f ∧
            row_name row = File.name f ∧
            row_remove row = OnRemoveFile i ∧
            row_remove_page row = OnOperation (RemovePages i [2%Z]) ∧
            row_compress row = OnOperation (Compress i (6 # 10)) ∧
            passes_guard (RemovePages i [2%Z]) w = true ∧
            passes_guard (Compress i (6 # 10)) w = true) ∧
  (merge_disabled (render (ui w)) = false →
     passes_guard Merge w = true ∧ processing (ui w) = false).
Proof.
  unfold render. cbn [view_rows merge_disabled]. split; [| split].
  - destruct (files (ui w)) as [|f fs] eqn:Hfs; [done |].
    cbn [length Nat.ltb Nat.leb]. by rewrite length_imap.
  - intros row Hrow.
    assert (Hin : row ∈ imap (fun i f =>
                    {| row_name := File.name f;
                       row_remove := OnRemoveFile i;
                       row_remove_page := OnOperation (RemovePages i [2%Z]);
                       row_compress := OnOperation (Compress i (6 # 10)) |})
                    (files (ui w))).
    { destruct (0 <? length (files (ui w))); [done |]. by apply elem_of_nil in Hrow. }
    apply elem_of_lookup_imap in Hin as (i & f & -> & Hf).
    exists i, f. cbn. rewrite Hf. by repeat split.
  - intros Hdis. apply orb_false_iff in Hdis as [Hproc Hlen].
    cbn [passes_guard]. by rewrite Hlen.
Qed.

(** X15: [reset] empties the pending list, the message and the result
    URL, so that the render shows no row, no message box and no download
    link, and every operation is then refused by its guard; it leaves
    the processing flag as it was and releases nothing from the URL
    store. *)
Theorem reset_clears (w : World) :
  ∃ w',
    reset w = (Normal tt, w') ∧
    files (ui w') = [] ∧
    message (ui w') = ""%string ∧
    resultUrl (ui w') = None ∧
    processing (ui w') = processing (ui w) ∧
    objectURLs w' = objectURLs w ∧
    log w' = log w ++ [SetFiles []; SetResultUrl None; SetMessage ""] ∧
    (∀ op, passes_guard op w' = false) ∧
    view_rows (render (ui w')) = [] ∧
    message_box (render (ui w')) = None ∧
    download (render (ui w')) = None ∧
    merge_disabled (render (ui w')) = true.
Proof.
  eexists. split; [reflexivity |]. simpl.
  repeat split; try done.
  - by rewrite <- !app_assoc.
  - by intros [|i R|i q].
  - apply orb_true_r.
Qed.

End Handlers.
End HandlerFacts.

(** ** More runs on the fake library *)

Module MoreRuns.
Import App AppFacts HandlerFacts Fake.

Lemma refused_operation_does_nothing_witness :
  ∃ w',
    run (RemovePages 7 [2%Z]) one_file = (Normal tt, w') ∧
    files (ui w') = files (ui one_file) ∧
    processing (ui w') = processing (ui one_file) ∧
    resultUrl (ui w') = resultUrl (ui one_file) ∧
    objectURLs w' = objectURLs one_file ∧
    calls (events_of (run (RemovePages 7 [2%Z])) one_file) = [] ∧
    w' = one_file.
Proof.
  apply (refused_operation_does_nothing (RemovePages 7 [2%Z]) one_file). reflexivity.
Defined.

Lemma import_failure_reads_nothing_witness :
  ∃ w',
    @run Byte.byte offline (Compress 0 (6 # 10)) one_file = (Normal tt, w') ∧
    log w' = log one_file ++
      [SetProcessing true; SetMessage (start_message (Compress 0 (6 # 10)));
       Call CallImport (Some import_error); ConsoleError import_error;
       SetMessage (error_prefix (Compress 0 (6 # 10)) ++ message_or_error import_error);
       SetProcessing false] ∧
    message (ui w') =
      (error_prefix (Compress 0 (6 # 10)) ++ message_or_error import_error)%string ∧
    processing (ui w') = false ∧
    resultUrl (ui w') = resultUrl (ui one_file) ∧
    files (ui w') = files (ui one_file) ∧
    objectURLs w' = objectURLs one_file.
Proof.
  apply (@import_failure_reads_nothing Byte.byte offline (Compress 0 (6 # 10))
           one_file import_error); reflexivity.
Defined.

Lemma mergePdfs_stops_at_first_failure_witness :
  ∃ w' evs,
    mergePdfs bad_middle_file = (Normal tt, w') ∧
    log w' = log bad_middle_file ++ evs ∧
    ConsoleError {| err_name := "Error"; err_message := "No PDF header found" |} ∈ evs ∧
    message (ui w') = "Errore durante l'unione: No PDF header found"%string ∧
    (∀ g r, Call (CallArrayBuffer g) r ∈ evs →
            g ∈ [pdf_file "a.pdf" docA] ++ [mislabelled_file "b.pdf" docB]) ∧
    saved evs = [] ∧
    (∀ u, SetResultUrl u ∉ evs) ∧
    resultUrl (ui w') = resultUrl (ui bad_middle_file) ∧
    objectURLs w' = objectURLs bad_middle_file ∧
    processing (ui w') = false.
Proof.
  apply (mergePdfs_stops_at_first_failure bad_middle_file
           [pdf_file "a.pdf" docA] [pdf_file "c.pdf" docC]
           (mislabelled_file "b.pdf" docB) [docA]
           {| err_name := "Error"; err_message := "No PDF header found" |}).
  - reflexivity.
  - reflexivity.
  - repeat constructor. by exists (header :: docA).
  - apply Forall_forall. intros p _. by exists p.
  - right. by exists docB.
Defined.

Lemma removePagesFromPdf_output_witness :
  ∃ w' evs out data,
    removePagesFromPdf 0 [2%Z] one_file = (Normal tt, w') ∧
    log w' = log one_file ++ evs ∧
    saved evs = [{| pages := out |}] ∧
    length out =
      length docA - size (list_to_set [2%Z] ∩ Selector.pageNumbers (length docA) : gset Z) ∧
    Forall2 (fun i q => ∃ p, docA !! i = Some p ∧ copied p q)
      (Selector.keep_spec (length docA) [2%Z]) out ∧
    serialize out = Normal data ∧
    objectURLs w' = objectURLs one_file ++ [artifact data] ∧
    resultUrl (ui w') = Some (length (objectURLs one_file)) ∧
    message (ui w') = "Pagine rimosse. Scarica il risultato qui sotto."%string ∧
    processing (ui w') = false.
Proof.
  apply (removePagesFromPdf_output 0 [2%Z] one_file (pdf_file "a.pdf" docA) docA).
  - reflexivity.
  - reflexivity.
  - by exists (header :: docA).
  - apply Forall_forall. intros p _. by exists p.
  - intros out. by exists (header :: out).
Defined.

Lemma removePagesFromPdf_everything_witness :
  ∃ w' evs,
    removePagesFromPdf 0 [2%Z; 1%Z] (idle [pdf_file "b.pdf" docB]) = (Normal tt, w') ∧
    log w' = log (idle [pdf_file "b.pdf" docB]) ++ evs ∧
    CallCopyPages {| pages := docB |} [] ∈ calls evs ∧
    saved evs = [{| pages := [] |}] ∧
    objectURLs w' = objectURLs (idle [pdf_file "b.pdf" docB]) ++ [artifact [header]] ∧
    resultUrl (ui w') = Some (length (objectURLs (idle [pdf_file "b.pdf" docB]))) ∧
    message (ui w') = "Pagine rimosse. Scarica il risultato qui sotto."%string.
Proof.
  apply (removePagesFromPdf_everything 0 [2%Z; 1%Z] (idle [pdf_file "b.pdf" docB])
           (pdf_file "b.pdf" docB) docB [header]).
  - reflexivity.
  - reflexivity.
  - by exists (header :: docB).
  - intros k Hk. cbn in Hk. assert (k = 1 ∨ k = 2)%Z as [-> | ->] by lia.
    + right. left.
    + left.
  - reflexivity.
Defined.

Lemma mergePdfs_of_concatenation_witness :
  ∃ out1 out2,
    saved (events_of mergePdfs one_file) = [{| pages := out1 |}] ∧
    saved (events_of mergePdfs (idle [pdf_file "b.pdf" docB])) = [{| pages := out2 |}] ∧
    saved (events_of mergePdfs two_files) = [{| pages := out1 ++ out2 |}].
Proof.
  apply (mergePdfs_of_concatenation two_files one_file (idle [pdf_file "b.pdf" docB])
           [pdf_file "a.pdf" docA] [pdf_file "b.pdf" docB] [docA] [docB]).
  - discriminate.
  - discriminate.
  - reflexivity.
  - reflexivity.
  - reflexivity.
  - reflexivity.
  - repeat constructor. by exists (header :: docA).
  - repeat constructor. by exists (header :: docB).
  - apply Forall_forall. intros p _. by exists p.
  - intros out. by exists (header :: out).
Defined.

End MoreRuns.
